(** * pythonindepth: a shallow embedding of the demonstration units

    Each [Module] below embeds one source file of the repository and is
    followed, at the end of the file, by the properties established for it.
    Python integers are unbounded and are modelled by [Z]; dictionaries by
    stdpp's [gmap]; sets by [gset]; text by [string]. Code that can raise is
    modelled with an explicit outcome type. *)

From Stdlib Require Import ZArith List Bool Ascii String Lia Sorted.
From Stdlib Require Import Floats.SpecFloat.
From stdpp Require Import base option list strings gmap pretty.
From Equations Require Import Equations.
Import ListNotations.

Set Warnings "-clear-no-such-hyp".

Local Open Scope string_scope.
Local Open Scope Z_scope.

(** ** Outcomes of Python code that may raise *)

(** Either the code returns a value, or it raises an exception. *)
Inductive outcome (E A : Type) : Type :=
| Returned (a : A)
| Raised (e : E).
Arguments Returned {E A} a.
Arguments Raised {E A} e.

Definition obind {E A B} (m : outcome E A) (k : A -> outcome E B) : outcome E B :=
  match m with
  | Returned a => k a
  | Raised e => Raised e
  end.

(** ** src/pythonindepth/callable_example.py *)

Module CallCountM.

(** The hashable arguments the table is keyed by. [KNone] is Python's
    [None], which [reset] reads as "no argument given". *)
Inductive key : Type :=
| KNone
| KStr (s : string)
| KInt (z : Z).

#[global] Instance key_eq_dec : EqDecision key.
Proof. solve_decision. Defined.

Definition key_enc (k : key) : unit + (string + Z) :=
  match k with
  | KNone => inl tt
  | KStr s => inr (inl s)
  | KInt z => inr (inr z)
  end.

Definition key_dec (x : unit + (string + Z)) : key :=
  match x with
  | inl _ => KNone
  | inr (inl s) => KStr s
  | inr (inr z) => KInt z
  end.

#[global] Instance key_countable : Countable key.
Proof. apply (inj_countable' key_enc key_dec). by intros []. Defined.

(** The instance state: [self._counts], a [defaultdict(int)]. *)
Record CallCount : Type := mkCallCount { _counts : gmap key Z }.

(** [__init__]: [defaultdict(int, initial_counts or {})]. An absent or
    empty [initial_counts] is falsy, so the table starts empty. *)
Definition init (initial_counts : option (gmap key Z)) : CallCount :=
  mkCallCount (default ∅ initial_counts).

(** [defaultdict.__getitem__]: a missing key is first stored with the
    factory's value [int() = 0], then read. *)
Definition dd_getitem (d : gmap key Z) (k : key) : Z * gmap key Z :=
  match d !! k with
  | Some v => (v, d)
  | None => (0, <[k := 0]> d)
  end.

(** [__call__]: [self._counts[argument] += 1; return self._counts[argument]]. *)
Definition call (argument : key) (self : CallCount) : Z * CallCount :=
  let '(v, d) := dd_getitem (_counts self) argument in
  let d' := <[argument := v + 1]> d in
  let '(r, d'') := dd_getitem d' argument in
  (r, mkCallCount d'').

(** [get_count]: [self._counts.get(argument, 0)]; [dict.get] never stores. *)
Definition get_count (argument : key) (self : CallCount) : Z * CallCount :=
  (default 0 (_counts self !! argument), self).

(** [reset(argument=None)]. *)
Definition reset (argument : key) (self : CallCount) : CallCount :=
  match argument with
  | KNone => mkCallCount ∅
  | _ => mkCallCount (<[argument := 0]> (_counts self))
  end.

(** [reset()] with the argument omitted takes the default [None]. *)
Definition reset_all (self : CallCount) : CallCount := reset KNone self.

End CallCountM.

(** ** src/pythonindepth/a_case_for_properties.py *)

Module CoordinateM.

(** The numbers a coordinate can be given: Python [int]s and [float]s.
    A float is its IEEE-754 datum; [S754_finite s m e] denotes
    [(-1)^s * m * 2^e]. *)
Inductive num : Type :=
| NInt (z : Z)
| NFloat (f : spec_float).

(** Python's [float == int]: an exact comparison of the two numbers.
    Infinities and NaN equal no integer. *)
Definition float_eq_int (f : spec_float) (i : Z) : bool :=
  match f with
  | S754_zero _ => i =? 0
  | S754_infinity _ => false
  | S754_nan => false
  | S754_finite s m e =>
      let sm := if s then Z.neg m else Z.pos m in
      if 0 <=? e then sm * 2 ^ e =? i else sm =? i * 2 ^ (- e)
  end.

(** The integers [range(lo, hi)] iterates over, in order. *)
Definition range_list (lo hi : Z) : list Z :=
  map (fun k => lo + Z.of_nat k) (seq 0 (Z.to_nat (hi - lo))).

(** [v in range(lo, hi)]. For an [int] the range answers by comparing
    with its bounds; for any other object it falls back to a linear
    search with [==] over its elements. *)
Definition range_contains (lo hi : Z) (v : num) : bool :=
  match v with
  | NInt z => (lo <=? z) && (z <? hi)
  | NFloat f => existsb (float_eq_int f) (range_list lo hi)
  end.

(** An f-string kept as its pieces: literal text and interpolated values. *)
Inductive frag : Type :=
| FLit (s : string)
| FVal (v : num).

Inductive exn : Type :=
| ValueError (msg : list frag).

(** The instance state: [self._latitude] and [self._longitude], which
    [__init__] first sets to [None]. *)
Record Coordinate : Type := mkCoordinate {
  _latitude : option num;
  _longitude : option num
}.

(** Getters. *)
Definition latitude (self : Coordinate) : option num := _latitude self.
Definition longitude (self : Coordinate) : option num := _longitude self.

(** [@latitude.setter]. The result pairs the object after the call with
    the call's outcome. *)
Definition latitude_set (lat_value : num) (self : Coordinate)
  : Coordinate * outcome exn unit :=
  if negb (range_contains (-90) (90 + 1) lat_value) then
    (self, Raised (ValueError [FVal lat_value; FLit " is an invalid value for latitude"]))
  else
    (mkCoordinate (Some lat_value) (_longitude self), Returned tt).

(** [@longitude.setter]. *)
Definition longitude_set (long_value : num) (self : Coordinate)
  : Coordinate * outcome exn unit :=
  if negb (range_contains (-180) (180 + 1) long_value) then
    (self, Raised (ValueError [FVal long_value; FLit " is an invalid value for longitude"]))
  else
    (mkCoordinate (_latitude self) (Some long_value), Returned tt).

(** [Coordinate(lat, long)]: an exception in [__init__] leaves the
    caller without an object. *)
Definition init (lat long : num) : outcome exn Coordinate :=
  let self0 := mkCoordinate None None in
  let '(self1, r1) := latitude_set lat self0 in
  match r1 with
  | Raised e => Raised e
  | Returned _ =>
      let '(self2, r2) := longitude_set long self1 in
      match r2 with
      | Raised e => Raised e
      | Returned _ => Returned self2
      end
  end.

(** The errors of the two setters, for reference in the properties. *)
Definition latitude_error (v : num) : exn :=
  ValueError [FVal v; FLit " is an invalid value for latitude"].
Definition longitude_error (v : num) : exn :=
  ValueError [FVal v; FLit " is an invalid value for longitude"].

(** 45.5 is [91 * 2^-1] and 90.5 is [181 * 2^-1]. *)
Definition float_45_5 : spec_float := S754_finite false 91 (-1).
Definition float_90_5 : spec_float := S754_finite false 181 (-1).

End CoordinateM.

(** ** src/pythonindepth/rtrie.py *)

Module RTrieM.

Definition R : nat := 26%nat.

Inductive exn : Type :=
| ValueError (msg : string).

(** The dataclass fields [value] and [next_]; a slot of [next_] is either
    [None] or a node. *)
#[warnings="-register-all"]
Inductive RTrieNode : Type :=
| mkRTrieNode (value : Z) (next_ : list (option RTrieNode)).

Definition value (n : RTrieNode) : Z :=
  match n with mkRTrieNode v _ => v end.
Definition next_ (n : RTrieNode) : list (option RTrieNode) :=
  match n with mkRTrieNode _ l => l end.

(** The class attribute [size = R]. *)
Definition size : nat := R.

(** [default_factory=lambda: [None] * R]. *)
Definition default_next : list (option RTrieNode) := repeat None R.

(** [__post_init__]. *)
Definition post_init (self : RTrieNode) : outcome exn unit :=
  if negb (Nat.eqb (length (next_ self)) size) then
    Raised (ValueError "Invalid length provided for next list")
  else Returned tt.

(** [RTrieNode(value, next_)]: the generated [__init__] stores the fields
    (taking the default factory when [next_] is omitted) and then runs
    [__post_init__]. *)
Definition init (v : Z) (nxt : option (list (option RTrieNode)))
  : outcome exn RTrieNode :=
  let self := mkRTrieNode v (default default_next nxt) in
  obind (post_init self) (fun _ => Returned self).

(** That the message of the error tells which length was given: two
    rejected child arrays get the same message only if they have the same
    length. *)
Definition message_identifies_length : Prop :=
  forall v (n1 n2 : list (option RTrieNode)) msg,
    init v (Some n1) = Raised (ValueError msg) ->
    init v (Some n2) = Raised (ValueError msg) ->
    length n1 = length n2.

End RTrieM.

(** ** Python values that appear as data in the remaining units *)

Inductive pyval : Type :=
| PyNone
| PyInt (z : Z)
| PyStr (s : string).

(** [str(v)], which is what an f-string applies to an interpolated value. *)
Definition py_str (v : pyval) : string :=
  match v with
  | PyNone => "None"
  | PyInt z => pretty z
  | PyStr s => s
  end.

(** A comprehension [[f(x) for x in xs]]: the elements are evaluated in
    order and the first exception ends the evaluation. *)
Fixpoint comprehension {E A B} (f : A -> outcome E B) (xs : list A)
  : outcome E (list B) :=
  match xs with
  | [] => Returned []
  | x :: xs' =>
      obind (f x) (fun y =>
      obind (comprehension f xs') (fun ys => Returned (y :: ys)))
  end.

(** ** src/parameter_passing/unpacking_variables.py *)

Module UsersM.

Inductive exn : Type :=
| IndexError (msg : string)
| ValueError (msg : string).

(** The dataclass [User]; its generated [__init__] stores the three
    arguments without checking their types. *)
Record User : Type := mkUser {
  user_id : pyval;
  first_name : pyval;
  last_name : pyval
}.

(** A database row: a Python tuple, of any length. *)
Definition row : Type := list pyval.

(** [row[i]] for a non-negative literal [i]. *)
Definition tuple_getitem (r : row) (i : nat) : outcome exn pyval :=
  match r !! i with
  | Some v => Returned v
  | None => Raised (IndexError "tuple index out of range")
  end.

(** The target [(user_id, first_name, last_name)] of the [for] clause:
    the row must have exactly three items. *)
Definition unpack3 (r : row) : outcome exn (pyval * pyval * pyval) :=
  match r with
  | [a; b; c] => Returned (a, b, c)
  | _ =>
      if (length r <? 3)%nat then
        Raised (ValueError ("not enough values to unpack (expected 3, got "
                              +:+ pretty (length r) +:+ ")"))
      else Raised (ValueError "too many values to unpack (expected 3)")
  end.

Definition bad_users_from_rows (dbrows : list row) : outcome exn (list User) :=
  comprehension
    (fun r =>
       obind (tuple_getitem r 0) (fun r0 =>
       obind (tuple_getitem r 1) (fun r1 =>
       obind (tuple_getitem r 2) (fun r2 =>
       Returned (mkUser r0 r1 r2)))))
    dbrows.

Definition users_from_rows (dbrows : list row) : outcome exn (list User) :=
  comprehension
    (fun r =>
       obind (unpack3 r) (fun '(user_id, first_name, last_name) =>
       Returned (mkUser user_id first_name last_name)))
    dbrows.

(** The module constant [USERS], for [range(n)] in place of [range(1_000)]. *)
Definition USERS_upto (n : nat) : list row :=
  map (fun i : nat =>
         [PyInt (Z.of_nat i);
          PyStr ("first_name_" +:+ pretty (Z.of_nat i));
          PyStr ("last_name_" +:+ pretty (Z.of_nat i))])
      (seq 0 n).

Definition USERS : list row := USERS_upto 1000.

(** The record a 3-field row is mapped to. *)
Definition user_of_row (r : row) : User :=
  mkUser (nth 0 r PyNone) (nth 1 r PyNone) (nth 2 r PyNone).

End UsersM.

(** ** src/pythonindepth/extend_list.py *)

Module GoodListM.

Inductive exn : Type :=
| IndexError (msg : string).

(** [UserList] keeps its elements in [self.data], a list. *)
Record GoodList : Type := mkGoodList { data : list pyval }.

(** [self.data[index]] for an integer index that fits an index-sized
    integer ([-2^63 <= index < 2^63], which every index inside a list
    does): a negative index counts from the end, and an index outside the
    list raises. *)
Definition list_getitem (l : list pyval) (index : Z) : outcome exn pyval :=
  let n := Z.of_nat (length l) in
  let j := if index <? 0 then index + n else index in
  if (j <? 0) || (n <=? j) then Raised (IndexError "list index out of range")
  else
    match l !! Z.to_nat j with
    | Some v => Returned v
    | None => Raised (IndexError "list index out of range")
    end.

(** [GoodList.__getitem__] at an integer index. Python's [%] with a
    positive right operand is never negative, as [Z.modulo]. *)
Definition getitem (self : GoodList) (index : Z) : outcome exn string :=
  obind (list_getitem (data self) index) (fun value =>
  let prefix := if index mod 2 =? 0 then "even" else "odd" in
  Returned ("[" +:+ prefix +:+ "] " +:+ py_str value)).

(** The parity tag of an integer. *)
Definition tag (index : Z) : string :=
  if index mod 2 =? 0 then "even" else "odd".

End GoodListM.

(** ** src/oop/mro.py *)

Module MroM.

(** The functions defined in class bodies. *)
Inductive method : Type :=
| object_init
| object_str
| BaseModule_init
| BaseModule_str.

(** What a class body binds a name to. *)
Inductive attr : Type :=
| AStr (s : string)
| AMethod (m : method).

(** A class statement: its name, its bases in the order written, and the
    names its body binds. *)
Record class_def : Type := mkClass {
  cname : string;
  bases : list string;
  body : list (string * attr)
}.

(** The classes of the module in definition order, after the builtin
    [object] that a class without written bases inherits from. *)
Definition program : list class_def :=
  [ mkClass "object" [] [("__init__", AMethod object_init); ("__str__", AMethod object_str)];
    mkClass "BaseModule" ["object"]
      [("module_name", AStr "top");
       ("__init__", AMethod BaseModule_init);
       ("__str__", AMethod BaseModule_str)];
    mkClass "BaseModule1" ["BaseModule"] [("module_name", AStr "module-1")];
    mkClass "BaseModule2" ["BaseModule"] [("module_name", AStr "module-2")];
    mkClass "BaseModule3" ["BaseModule"] [("module_name", AStr "module-3")];
    mkClass "ConcreteModuleA12" ["BaseModule1"; "BaseModule2"] [];
    mkClass "ConcreteModuleB23" ["BaseModule2"; "BaseModule3"] [] ].

(** The first binding of a name. *)
Definition assoc {V} (k : string) (l : list (string * V)) : option V :=
  snd <$> find (fun kv => String.eqb (fst kv) k) l.

Definition mem (k : string) (l : list string) : bool :=
  existsb (String.eqb k) l.

(** One step of the C3 merge: the first head that is in the tail of no
    sequence. *)
Definition c3_candidate (seqs : list (list string)) : option string :=
  find (fun h => forallb (fun s => negb (mem h (tl s))) seqs)
       (omap (fun s => hd_error s) seqs).

Definition c3_drop (h : string) (seqs : list (list string)) : list (list string) :=
  map (fun s => match s with
                | x :: s' => if String.eqb x h then s' else s
                | [] => []
                end) seqs.

(** The C3 merge of the bases' linearizations and the list of bases.
    [None] is the [TypeError] of an inconsistent hierarchy. Every step
    removes a name, so the total length of the sequences bounds the steps. *)
Fixpoint c3_merge (fuel : nat) (seqs : list (list string)) : option (list string) :=
  let seqs := filter (fun s => negb (Nat.eqb (length s) 0)) seqs in
  match seqs with
  | [] => Some []
  | _ =>
      match fuel with
      | O => None
      | S fuel' =>
          h ← c3_candidate seqs;
          rest ← c3_merge fuel' (c3_drop h seqs);
          Some (h :: rest)
      end
  end.

(** [C.__mro__], computed when the class statement runs from the stored
    linearizations of its bases. *)
Definition mro_of (known : list (string * list string)) (c : class_def)
  : option (list string) :=
  base_mros ← mapM (fun b => assoc b known) (bases c);
  let seqs := (base_mros ++ [bases c])%list in
  rest ← c3_merge (length (concat seqs)) seqs;
  Some (cname c :: rest).

Fixpoint mro_table (defs : list class_def) (known : list (string * list string))
  : option (list (string * list string)) :=
  match defs with
  | [] => Some known
  | c :: defs' =>
      m ← mro_of known c;
      mro_table defs' (known ++ [(cname c, m)])%list
  end.

Definition mro (c : string) : option (list string) :=
  tbl ← mro_table program [];
  assoc c tbl.

(** Attribute lookup on a class: the first class of the linearization
    whose body binds the name. *)
Fixpoint lookup_in (classes : list string) (name : string) : option attr :=
  match classes with
  | [] => None
  | c :: rest =>
      match (d ← find (fun d => String.eqb (cname d) c) program; assoc name (body d)) with
      | Some a => Some a
      | None => lookup_in rest name
      end
  end.

Definition class_getattr (c name : string) : option attr :=
  m ← mro c;
  lookup_in m name.

(** An instance: its class and its own attribute dictionary. *)
Record instance : Type := mkInstance {
  cls : string;
  idict : list (string * string)
}.

(** [self.name] for reading: the instance dictionary first, then the class. *)
Definition getattr (self : instance) (name : string) : option string :=
  match assoc name (idict self) with
  | Some v => Some v
  | None =>
      match class_getattr (cls self) name with
      | Some (AStr s) => Some s
      | _ => None
      end
  end.

(** [cls(module_name)]: a new instance on which the [__init__] found
    through the linearization is run; [BaseModule.__init__] is
    [self.name = module_name]. [object.__init__] takes no argument, so
    finding it is the [TypeError] that [None] stands for. *)
Definition construct (c : string) (module_name : string) : option instance :=
  let self := mkInstance c [] in
  match class_getattr c "__init__" with
  | Some (AMethod BaseModule_init) =>
      Some (mkInstance (cls self) (("name", module_name) :: idict self))
  | _ => None
  end.

(** [str(self)]: the [__str__] found through the linearization of the
    instance's class; [BaseModule.__str__] is
    [f"{self.module_name}:{self.name}"]. The rendering of [object.__str__]
    (an address) is outside the model, as is a missing attribute: [None]. *)
Definition str (self : instance) : option string :=
  match class_getattr (cls self) "__str__" with
  | Some (AMethod BaseModule_str) =>
      mn ← getattr self "module_name";
      n ← getattr self "name";
      Some (mn +:+ ":" +:+ n)
  | _ => None
  end.

End MroM.

(** ** src/pythonindepth/container_object.py *)

Module BagM.
Section Bag.

(** The element type with the two comparisons the code applies to it:
    [<] (used by [sorted] and [bisect_left]) and [==]. *)
Context {A : Type} (ltb eqb : A -> A -> bool).

(** [sorted(input)] is a stable sort that compares with [<] only. Its
    result is modelled by stable insertion: an element goes in front of
    the first element that is not smaller than it. *)
Fixpoint insort (x : A) (l : list A) : list A :=
  match l with
  | [] => [x]
  | y :: l' => if ltb y x then y :: insort x l' else x :: y :: l'
  end.

Definition sorted (input : list A) : list A := foldr insort [] input.

(** The loop of [bisect.bisect_left]:
    [while lo < hi: mid = (lo + hi) // 2;
       if a[mid] < x: lo = mid + 1 else: hi = mid].
    [None] is the [IndexError] of reading [a[mid]] outside the list. *)
Equations? bisect_loop (a : list A) (x : A) (lo hi : nat) : option nat
  by wf (hi - lo)%nat lt :=
  bisect_loop a x lo hi with lt_dec lo hi => {
    | right _ := Some lo ;
    | left _ with a !! ((lo + hi) / 2)%nat => {
        | None := None ;
        | Some v with ltb v x => {
            | true := bisect_loop a x ((lo + hi) / 2 + 1)%nat hi ;
            | false := bisect_loop a x lo ((lo + hi) / 2)%nat } } }.
Proof.
  all: change (fst (Nat.divmod (lo + hi) 1 0 1)) with ((lo + hi) / 2)%nat;
    pose proof (Nat.div_mod_eq (lo + hi) 2);
    pose proof (Nat.mod_upper_bound (lo + hi) 2); lia.
Qed.

(** [bisect_left(a, x)] with the defaults [lo = 0], [hi = len(a)]. *)
Definition bisect_left (a : list A) (x : A) : option nat :=
  bisect_loop a x 0 (length a).

Record Bag : Type := mkBag { _sorted_list : list A }.

(** [__init__]. *)
Definition init (input : list A) : Bag := mkBag (sorted input).

(** [__contains__]: [idx < len(l) and l[idx] == x]; the right operand of
    [and] is evaluated only when the left one is true. *)
Definition contains (self : Bag) (x : A) : option bool :=
  idx ← bisect_left (_sorted_list self) x;
  if (idx <? length (_sorted_list self))%nat then
    v ← _sorted_list self !! idx;
    Some (eqb v x)
  else Some false.

(** [a] is not after [b] in the order. *)
Definition not_after (a b : A) : Prop := ltb b a = false.

End Bag.
End BagM.

(** ** Scoped resources: src/pythonindepth/context_manager_sample.py,
       src/pythonindepth/contextlib_sample.py, src/basics/context_decorator.py *)

Module ContextM.

(** Exception objects. [id] tells apart two objects of one kind, so that
    equality of two values stands for Python's [is]. A [RuntimeError]
    carries its [__cause__]. *)
#[warnings="-register-all"]
Inductive exn : Type :=
| StopIteration (id : nat)
| RuntimeError (msg : string) (cause : option exn)
| OtherError (kind : string) (id : nat).

Fixpoint exn_eqb (a b : exn) : bool :=
  match a, b with
  | StopIteration i, StopIteration j => Nat.eqb i j
  | RuntimeError m c, RuntimeError m' c' =>
      String.eqb m m' &&
      match c, c' with
      | Some x, Some y => exn_eqb x y
      | None, None => true
      | _, _ => false
      end
  | OtherError k i, OtherError k' j => String.eqb k k' && Nat.eqb i j
  | _, _ => false
  end.

Definition is_StopIteration (e : exn) : bool :=
  match e with StopIteration _ => true | _ => false end.

(** A computation prints lines and then returns or raises: [run = print],
    and what has been printed stays printed. *)
Definition M (A : Type) : Type := list string * outcome exn A.

Definition ret {A} (a : A) : M A := ([], Returned a).
Definition raise {A} (e : exn) : M A := ([], Raised e).

Definition bind {A B} (m : M A) (k : A -> M B) : M B :=
  match m with
  | (out, Returned a) => let '(out', r) := k a in ((out ++ out')%list, r)
  | (out, Raised e) => (out, Raised e)
  end.

(** [try: m  except BaseException as e: h e]. *)
Definition try_except {A} (m : M A) (h : exn -> M A) : M A :=
  match m with
  | (out, Returned a) => (out, Returned a)
  | (out, Raised e) => let '(out', r) := h e in ((out ++ out')%list, r)
  end.

(** [try: m  except BaseException as e: h e  else: k]: the handler does
    not cover what [k] raises. *)
Definition try_except_else {A B} (m : M A) (h : exn -> M B) (k : A -> M B) : M B :=
  match m with
  | (out, Returned a) => let '(out', r) := k a in ((out ++ out')%list, r)
  | (out, Raised e) => let '(out', r) := h e in ((out ++ out')%list, r)
  end.

(** [try: m  finally: f]: [f] runs on both ways out; if [f] itself
    raises, that exception replaces the outcome of [m]. *)
Definition try_finally {A} (m : M A) (f : M unit) : M A :=
  match m with
  | (out, r) =>
      match f with
      | (out', Returned _) => ((out ++ out')%list, r)
      | (out', Raised e) => ((out ++ out')%list, Raised e)
      end
  end.

Notation "'do' x <- m ; k" := (bind m (fun x => k))
  (at level 10, x name, m at level 100, k at level 200).
Notation "'exec' m ; k" := (bind m (fun _ => k))
  (at level 10, m at level 100, k at level 200).

Definition run (line : string) : M unit := ([line], Returned tt).

Definition stop_database : M unit := run "systemctl stop postgresql.service".
Definition start_database : M unit := run "systemctl start postgresql.service".
Definition db_backup : M unit := run "pg_dump database".

(** *** The context-manager protocol and the [with] statement *)

(** A context manager with internal state [S]: [__enter__], and
    [__exit__] given the exception of the block if there is one; the
    boolean is the truth value of what [__exit__] returns. *)
Record context_manager (S : Type) : Type := mkCM {
  cm_enter : S -> M S;
  cm_exit : S -> option exn -> M (S * bool)
}.
Arguments cm_enter {S}.
Arguments cm_exit {S}.

(** [with mgr: block]. [__enter__] runs, then the block. If the block
    raised, [__exit__] gets the exception, and the exception is raised
    again unless [__exit__] returned a true value, in which case the
    statement ends normally without a value ([None] below). Otherwise
    [__exit__] gets [None]. *)
Definition with_stmt {S A} (cm : context_manager S) (mgr : S) (block : M A)
  : M (option A) :=
  do s <- cm_enter cm mgr;
  match block with
  | (out, Raised e) =>
      exec (out, Returned tt);
      do sb <- cm_exit cm s (Some e);
      if snd sb then ret None else raise e
  | (out, Returned a) =>
      exec (out, Returned tt);
      exec cm_exit cm s None;
      ret (Some a)
  end.

(** *** context_manager_sample.py: [DBHandler] *)

(** [__exit__] ends without a [return]: it returns [None], a false value. *)
Definition DBHandler : context_manager unit :=
  mkCM unit
    (fun self => exec stop_database; ret self)
    (fun self _ => exec start_database; ret (self, false)).

(** [main]'s statement [with DBHandler(): block], for any block. *)
Definition with_DBHandler {A} (block : M A) : M (option A) :=
  with_stmt DBHandler tt block.

Definition main : M (option unit) := with_DBHandler db_backup.

(** *** context_decorator.py: [dbhandler_decorator] *)

Definition dbhandler_decorator : context_manager unit :=
  mkCM unit
    (fun self => exec stop_database; ret self)
    (fun self _ => exec start_database; ret (self, false)).

(** [ContextDecorator.__call__]: the decorated function is
    [with self._recreate_cm(): return func()]. The [return]
    leaves the block normally with the value; when the block's exception
    is suppressed the function ends without [return], that is with no
    value ([None]). *)
Definition decorated {A} (func : M A) : M (option A) :=
  with_stmt dbhandler_decorator tt func.

Definition offline_backup : M (option unit) :=
  decorated (run "pg_dump database").

(** *** contextlib_sample.py: the generator [db_handler] *)

(** Where the generator's frame stands: not started, suspended at its
    one [yield] (inside the [try]), or finished. *)
Inductive gen_state : Type := GenCreated | GenAtYield | GenFinished.

(** A generator that lets a [StopIteration] escape its body raises
    [RuntimeError("generator raised StopIteration")] caused by it. *)
Definition gen_escape (e : exn) : exn :=
  if is_StopIteration e then RuntimeError "generator raised StopIteration" (Some e)
  else e.

(** [next(gen)] on [db_handler()]. [Returned g] is a [yield], with the
    frame now at [g]; [Raised] finishes the generator. From the start,
    the body enters [try], runs [stop_database()] and yields. Resumed at
    the [yield], it leaves the [try] normally, runs [finally] and falls
    off its end, which raises [StopIteration]. *)
Definition db_handler_next (g : gen_state) : M gen_state :=
  match g with
  | GenCreated =>
      match stop_database with
      | (out, Returned _) => (out, Returned GenAtYield)
      | (out, Raised e) =>
          try_except (try_finally (out, Raised e) start_database)
                     (fun e' => raise (gen_escape e'))
      end
  | GenAtYield =>
      exec try_finally (ret tt) start_database;
      raise (StopIteration 0)
  | GenFinished => raise (StopIteration 0)
  end.

(** [gen.throw(e)]: [e] is raised where the frame stands; at the [yield]
    that is inside [try ... finally]. The generator never yields again. *)
Definition db_handler_throw (g : gen_state) (e : exn) : M gen_state :=
  match g with
  | GenCreated => raise e
  | GenAtYield =>
      try_except (try_finally (raise e) start_database)
                 (fun e' => raise (gen_escape e'))
  | GenFinished => raise e
  end.

(** [contextlib._GeneratorContextManager], the object that
    [@contextlib.contextmanager] makes [db_handler()] return: its
    generator [self.gen], and whether it still has the attributes [args],
    [kwds] and [func] that its constructor stores. *)
Record gen_manager : Type := mkGenManager {
  gen : gen_state;
  has_args : bool
}.

(** [db_handler()]: the constructor calls the generator function, which
    gives a generator that has not started, and stores the arguments. *)
Definition new_db_handler : gen_manager := mkGenManager GenCreated true.

(** [__enter__] is
    [del self.args, self.kwds, self.func
     try: return next(self.gen)
     except StopIteration: raise RuntimeError("generator didn't yield")].
    Deleting an attribute that is no longer there raises
    [AttributeError]. *)
Definition gcm_enter (self : gen_manager) : M gen_manager :=
  if has_args self then
    try_except
      (do g <- db_handler_next (gen self); ret (mkGenManager g false))
      (fun e => if is_StopIteration e
                then raise (RuntimeError "generator didn't yield" None)
                else raise e)
  else raise (OtherError "AttributeError" 0).

(** [__exit__(typ, value, traceback)]: without an exception the generator
    is resumed and must stop; with one, the exception is thrown into the
    generator, and [__exit__] returns false when the very same exception
    (or the [RuntimeError] wrapping a thrown [StopIteration]) comes back
    out. In both cases a generator that yields again is an error, raised
    outside the [try]. *)
Definition gcm_exit (self : gen_manager) (exc : option exn)
  : M (gen_manager * bool) :=
  let finished := mkGenManager GenFinished (has_args self) in
  match exc with
  | None =>
      try_except_else (db_handler_next (gen self))
        (fun e => if is_StopIteration e then ret (finished, false) else raise e)
        (fun _ => raise (RuntimeError "generator didn't stop" None))
  | Some value =>
      try_except_else (db_handler_throw (gen self) value)
        (fun e =>
           match e with
           | StopIteration _ => ret (finished, negb (exn_eqb e value))
           | RuntimeError _ cause =>
               if exn_eqb e value then ret (finished, false)
               else if is_StopIteration value &&
                       match cause with
                       | Some c => exn_eqb c value
                       | None => false
                       end
               then ret (finished, false)
               else raise e
           | _ => if negb (exn_eqb e value) then raise e
                  else ret (finished, false)
           end)
        (fun _ => raise (RuntimeError "generator didn't stop after throw()" None))
  end.

Definition db_handler : context_manager gen_manager :=
  mkCM gen_manager gcm_enter gcm_exit.

(** The module's statement [with db_handler(): block], for any block. *)
Definition with_db_handler {A} (block : M A) : M (option A) :=
  with_stmt db_handler new_db_handler block.

(** What the caller of a [with] statement sees of the block's outcome:
    its value, or the exception it raised. *)
Definition surfaced {A} (r : outcome exn A) : outcome exn (option A) :=
  match r with
  | Returned a => Returned (Some a)
  | Raised e => Raised e
  end.

(** The stop line, the block's output, the start line. *)
Definition bracketed (out : list string) : list string :=
  ("systemctl stop postgresql.service" :: out ++ ["systemctl start postgresql.service"])%list.

End ContextM.

(** ** src/pythonindepth/naive_vs_comprension.py *)

Module ArnM.

(** *** The fragment of [re] patterns that [ARN_REGEX] is written in

    Text is made of 7-bit characters, on which [\w] is [[a-zA-Z0-9_]] and
    [\d] is [[0-9]]. *)

(** What matches one character: a literal, [\w], [\d], [.], or a
    bracketed union of these. *)
Inductive cset : Type :=
| CChar (c : ascii)
| CWord
| CDigit
| CDot
| CUnion (a b : cset).

Definition between (lo hi : N) (c : ascii) : bool :=
  let n := N_of_ascii c in ((lo <=? n) && (n <=? hi))%N.

Definition is_digit (c : ascii) : bool := between 48 57 c.

Definition is_word (c : ascii) : bool :=
  between 97 122 c || between 65 90 c || is_digit c || Ascii.eqb c "_".

Definition newline : ascii := ascii_of_N 10.

Fixpoint cset_matches (cs : cset) (c : ascii) : bool :=
  match cs with
  | CChar c' => Ascii.eqb c c'
  | CWord => is_word c
  | CDigit => is_digit c
  | CDot => negb (Ascii.eqb c newline)
  | CUnion a b => cset_matches a c || cset_matches b c
  end.

Inductive regex : Type :=
| RBegin                                   (* ^ *)
| REnd                                     (* $ *)
| RText (s : string)                       (* literal characters *)
| RRepeat (cs : cset) (lo : nat) (hi : option nat)
                                           (* greedy cs{lo,hi}; + and * *)
| RGroup (name : string) (r : regex)       (* (?P<name>r) *)
| RCat (r1 r2 : regex).

(** A matcher state: how many characters are consumed, what is left of
    the subject, and the named groups closed so far. *)
Record mstate : Type := mkState {
  consumed : nat;
  rest : string;
  groups : list (string * string)
}.

Fixpoint strip_prefix (p s : string) : option string :=
  match p, s with
  | EmptyString, _ => Some s
  | String a p', String b s' => if Ascii.eqb a b then strip_prefix p' s' else None
  | String _ _, EmptyString => None
  end.

Definition dec_hi (hi : option nat) : option nat := Nat.pred <$> hi.

Definition hi_allows (hi : option nat) : bool :=
  match hi with Some O => false | _ => true end.

(** The ways a greedy repetition can match a prefix of [s], the longest
    first: the order in which a backtracking matcher tries them. Each is
    the number of characters taken and what is left. *)
Fixpoint repeat_matches (cs : cset) (lo : nat) (hi : option nat) (s : string)
  (taken : nat) : list (nat * string) :=
  let stop := if Nat.eqb lo 0 then [(taken, s)] else [] in
  match s with
  | String c s' =>
      if cset_matches cs c && hi_allows hi then
        (repeat_matches cs (Nat.pred lo) (dec_hi hi) s' (S taken) ++ stop)%list
      else stop
  | EmptyString => stop
  end.

(** [$] without [re.MULTILINE]: at the end, or just before a newline that
    ends the subject. *)
Definition at_end (s : string) : bool :=
  match s with
  | EmptyString => true
  | String c EmptyString => Ascii.eqb c newline
  | _ => false
  end.

(** All the ways [r] matches from a state, in the matcher's order of
    preference. *)
Fixpoint matches (r : regex) (st : mstate) : list mstate :=
  match r with
  | RBegin => if Nat.eqb (consumed st) 0 then [st] else []
  | REnd => if at_end (rest st) then [st] else []
  | RText p =>
      match strip_prefix p (rest st) with
      | Some s' => [mkState (consumed st + String.length p) s' (groups st)]
      | None => []
      end
  | RRepeat cs lo hi =>
      (fun '(n, s') => mkState (consumed st + n) s' (groups st))
        <$> repeat_matches cs lo hi (rest st) 0
  | RGroup name r' =>
      (fun st' =>
         mkState (consumed st') (rest st')
           ((name, substring 0 (consumed st' - consumed st) (rest st))
              :: groups st'))
        <$> matches r' st
  | RCat r1 r2 => mbind (M := list) (matches r2) (matches r1 st)
  end.

(** [re.match(pattern, string)]: the first way the pattern matches at the
    start of the string; the result stands for [matched.groupdict()]. *)
Definition re_match (pattern : regex) (subject : string)
  : option (list (string * string)) :=
  groups <$> head (matches pattern (mkState 0 subject [])).

Definition groupdict_get (name : string) (gd : list (string * string)) : option string :=
  snd <$> find (fun kv => String.eqb (fst kv) name) gd.

(** [r"^arn:aws:[\w-]+:[\w-]*:(?P<account_id>\d{12}):.+$"] *)
Definition ARN_REGEX : regex :=
  RCat RBegin
 (RCat (RText "arn:aws:")
 (RCat (RRepeat (CUnion CWord (CChar "-")) 1 None)
 (RCat (RText ":")
 (RCat (RRepeat (CUnion CWord (CChar "-")) 0 None)
 (RCat (RText ":")
 (RCat (RGroup "account_id" (RRepeat CDigit 12 (Some 12%nat)))
 (RCat (RText ":")
 (RCat (RRepeat CDot 1 None)
       REnd)))))))).

(** [re.match(ARN_REGEX, arn)] followed by [.groupdict()["account_id"]]. *)
Definition account_id_of (arn : string) : option string :=
  gd ← re_match ARN_REGEX arn;
  groupdict_get "account_id" gd.

(** *** The functions of the module *)

Definition generate_fake_arns
  (service region resource_type resource_prefix : string) (count : nat)
  : list string :=
  map (fun i : nat =>
         let account_id := pretty (100000000000 + Z.of_nat i) in
         let resource_name := resource_prefix +:+ "-" +:+ pretty (Z.of_nat i) in
         "arn:aws:" +:+ service +:+ ":" +:+ region +:+ ":" +:+ account_id
           +:+ ":" +:+ resource_type +:+ "/" +:+ resource_name)
      (seq 0 count).

(** The call with the keyword defaults. *)
Definition generate_fake_arns_default (count : nat) : list string :=
  generate_fake_arns "s3" "us-east-1" "bucket" "test-bucket" count.

(** The eager loop: a set that grows by [add]. *)
Definition collect_account_ids_from_arns (arns : list string) : gset string :=
  foldl (fun collected_account_ids arn =>
           match re_match ARN_REGEX arn with
           | Some gd =>
               match groupdict_get "account_id" gd with
               | Some account_id => collected_account_ids ∪ {[account_id]}
               | None => collected_account_ids
               end
           | None => collected_account_ids
           end) ∅ arns.

(** The generator expression: the items it yields, in order, when it is
    consumed. A match object is a true value, so the filter keeps exactly
    the matches. *)
Definition collect_account_ids_from_arns_1 (arns : list string) : list string :=
  omap (fun arn =>
          match re_match ARN_REGEX arn with
          | Some gd => groupdict_get "account_id" gd
          | None => None
          end) arns.

End ArnM.

(** ** Runs of the units: sequences of calls on one object *)

Module CallCountRun.
Import CallCountM.

(** The calls [counter(k)] for the keys of [ks] in order, on one
    instance: what each call returned, and the instance afterwards. *)
Fixpoint call_all (ks : list key) (self : CallCount) : list Z * CallCount :=
  match ks with
  | [] => ([], self)
  | k :: ks' =>
      let '(r, self1) := call k self in
      let '(rs, self2) := call_all ks' self1 in
      (r :: rs, self2)
  end.

(** How often [k] is among [ks]. *)
Definition occurrences (k : key) (ks : list key) : Z :=
  Z.of_nat (length (filter (fun k' => k' = k) ks)).

End CallCountRun.

Module CoordinateRun.
Import CoordinateM.

(** An assignment statement on a coordinate. *)
Inductive assignment : Type :=
| SetLatitude (v : num)
| SetLongitude (v : num).

(** The object after one assignment, whether it raised or not. *)
Definition assign (a : assignment) (self : Coordinate) : Coordinate :=
  match a with
  | SetLatitude v => fst (latitude_set v self)
  | SetLongitude v => fst (longitude_set v self)
  end.

(** The object after a sequence of assignments, by a caller that goes
    on after each [ValueError]. *)
Definition assign_all (ops : list assignment) (self : Coordinate) : Coordinate :=
  foldl (fun c a => assign a c) self ops.

(** Both fields hold a value of their range. *)
Definition in_bounds (self : Coordinate) : bool :=
  match latitude self, longitude self with
  | Some la, Some lo =>
      range_contains (-90) 91 la && range_contains (-180) 181 lo
  | _, _ => false
  end.

(** 45.0, 90.0 and -0.0. *)
Definition float_45_0 : spec_float := S754_finite false 45 0.
Definition float_90_0 : spec_float := S754_finite false 45 1.
Definition float_neg_zero : spec_float := S754_zero true.

End CoordinateRun.

Module UsersRun.
Import UsersM.

(** What the two comprehensions do with one row. *)
Definition by_index (r : row) : outcome exn User :=
  obind (tuple_getitem r 0) (fun r0 =>
  obind (tuple_getitem r 1) (fun r1 =>
  obind (tuple_getitem r 2) (fun r2 =>
  Returned (mkUser r0 r1 r2)))).

Definition by_unpacking (r : row) : outcome exn User :=
  obind (unpack3 r) (fun '(user_id, first_name, last_name) =>
  Returned (mkUser user_id first_name last_name)).

(** The record the [i]-th row of [USERS] stands for. *)
Definition user_number (i : nat) : User :=
  mkUser (PyInt (Z.of_nat i))
         (PyStr ("first_name_" +:+ pretty (Z.of_nat i)))
         (PyStr ("last_name_" +:+ pretty (Z.of_nat i))).

End UsersRun.

Module BagRun.
Import BagM.

(** How many elements of [input] are smaller than [x]. *)
Definition smaller_count {A} (ltb : A -> A -> bool) (x : A) (input : list A) : nat :=
  length (filter (fun e => ltb e x = true) input).

End BagRun.

Module ArnShape.
Import ArnM.

(** Every character of [s] satisfies [f]. *)
Fixpoint all_chars (f : ascii -> bool) (s : string) : bool :=
  match s with
  | EmptyString => true
  | String c s' => f c && all_chars f s'
  end.

(** The text is made of 7-bit characters only. *)
Definition seven_bit (s : string) : bool :=
  all_chars (fun c => (N_of_ascii c <? 128)%N) s.

(** The class [[\w-]] of the service and region fields. *)
Definition word_hyphen (c : ascii) : bool :=
  cset_matches (CUnion CWord (CChar "-")) c.

(** What [.] matches. *)
Definition not_newline (c : ascii) : bool := cset_matches CDot c.

(** The text the pattern describes: the five fields between their
    colons, and what may follow the resource ([tail]). *)
Definition arn_text (service region account_id resource tail : string) : string :=
  "arn:aws:" +:+ service +:+ ":" +:+ region +:+ ":" +:+ account_id +:+ ":"
    +:+ resource +:+ tail.

(** The conditions the pattern puts on the fields: a service of one or
    more word characters or hyphens, a region of such characters, an
    account id of twelve digits, a resource of one or more characters
    other than a newline, and nothing after it but possibly one final
    newline. *)
Definition arn_fields_ok (service region account_id resource tail : string) : bool :=
  negb (String.eqb service "") && all_chars word_hyphen service &&
  all_chars word_hyphen region &&
  Nat.eqb (String.length account_id) 12 && all_chars is_digit account_id &&
  negb (String.eqb resource "") && all_chars not_newline resource &&
  at_end tail.

(** Whether a repetition bound [hi] allows [k] characters. *)
Definition hi_ok (hi : option nat) (k : nat) : Prop :=
  match hi with
  | Some h => (k <= h)%nat
  | None => True
  end.

(** The identifier [generate_fake_arns] appends for the index [i]. *)
Definition fake_arn (service region resource_type resource_prefix : string) (i : Z)
  : string :=
  let account_id := pretty (100000000000 + i) in
  let resource_name := resource_prefix +:+ "-" +:+ pretty i in
  "arn:aws:" +:+ service +:+ ":" +:+ region +:+ ":" +:+ account_id
    +:+ ":" +:+ resource_type +:+ "/" +:+ resource_name.

End ArnShape.

(** * Properties *)

Module CallCountProps.
Import CallCountM.

Lemma call_spec k c :
  call k c =
    (default 0 (_counts c !! k) + 1,
     mkCallCount (<[k := default 0 (_counts c !! k) + 1]> (_counts c))).
Proof.
  unfold call, dd_getitem. destruct (_counts c !! k) as [v|] eqn:E; simpl.
  - by rewrite lookup_insert_eq.
  - rewrite lookup_insert_eq. by rewrite insert_insert_eq.
Qed.

Lemma get_count_pure k c : snd (get_count k c) = c.
Proof. reflexivity. Qed.

Lemma reset_all_zero k c : fst (get_count k (reset_all c)) = 0.
Proof. unfold get_count, reset_all, reset. simpl. by rewrite lookup_empty. Qed.

Lemma reset_key_zero k c : k <> KNone -> fst (get_count k (reset k c)) = 0.
Proof.
  intros Hk. unfold get_count. simpl.
  destruct k; [done | |]; simpl; by rewrite lookup_insert_eq.
Qed.

End CallCountProps.

Module CoordinateProps.
Import CoordinateM.

Lemma range_list_spec lo hi z :
  In z (range_list lo hi) <-> lo <= z < hi.
Proof.
  unfold range_list. rewrite in_map_iff. split.
  - intros [k [<- Hk]]. apply in_seq in Hk. lia.
  - intros H. exists (Z.to_nat (z - lo)). split; [lia |].
    apply in_seq. lia.
Qed.

(** A float is in the range exactly when it equals one of its integers. *)
Lemma range_contains_float lo hi f :
  range_contains lo hi (NFloat f) = true <->
  exists i, lo <= i < hi /\ float_eq_int f i = true.
Proof.
  simpl. rewrite existsb_exists. split.
  - intros [i [Hi He]]. exists i. by rewrite <- range_list_spec.
  - intros [i [Hi He]]. exists i. by rewrite range_list_spec.
Qed.

Lemma range_contains_nonintegral lo hi f :
  (forall i : Z, float_eq_int f i = false) ->
  range_contains lo hi (NFloat f) = false.
Proof.
  intros H. apply not_true_is_false. rewrite range_contains_float.
  intros [i [_ Hi]]. rewrite H in Hi. discriminate.
Qed.

Lemma latitude_set_returned v c c' :
  latitude_set v c = (c', Returned tt) ->
  range_contains (-90) 91 v = true /\ latitude c' = Some v /\ longitude c' = longitude c.
Proof.
  unfold latitude_set. change (90 + 1) with 91.
  destruct (range_contains (-90) 91 v); simpl; [|discriminate].
  intros [= <-]. done.
Qed.

Lemma longitude_set_returned v c c' :
  longitude_set v c = (c', Returned tt) ->
  range_contains (-180) 181 v = true /\ longitude c' = Some v /\ latitude c' = latitude c.
Proof.
  unfold longitude_set. change (180 + 1) with 181.
  destruct (range_contains (-180) 181 v); simpl; [|discriminate].
  intros [= <-]. done.
Qed.

End CoordinateProps.

Module CallCountTheorems.
Import CallCountM CallCountProps.

(** C6. On a fresh [CallCount], three calls with ["a"] return 1, 2, 3;
    [get_count("a")] then returns 3 and leaves the state as it is;
    after [reset("a")], [get_count("a")] returns 0; and after [reset()]
    [get_count] returns 0 for every key, in whatever state [reset()] was
    called. *)
Theorem callcount_scenario :
  let a := KStr "a" in
  let c0 := init None in
  let c1 := snd (call a c0) in
  let c2 := snd (call a c1) in
  let c3 := snd (call a c2) in
  fst (call a c0) = 1 /\ fst (call a c1) = 2 /\ fst (call a c2) = 3 /\
  get_count a c3 = (3, c3) /\
  fst (get_count a (reset a c3)) = 0 /\
  fst (get_count a (reset_all c3)) = 0 /\
  (forall (c : CallCount) (k : key), fst (get_count k (reset_all c)) = 0) /\
  (forall (c : CallCount) (k : key), snd (get_count k c) = c).
Proof.
  cbv zeta. rewrite !call_spec. simpl.
  repeat (rewrite ?lookup_insert_eq, ?lookup_empty, ?insert_insert_eq; simpl).
  repeat split; auto using reset_all_zero, get_count_pure.
Qed.

End CallCountTheorems.

Module CoordinateTheorems.
Import CoordinateM CoordinateProps.

Lemma latitude_set_int z c :
  latitude_set (NInt z) c =
    if (-90 <=? z) && (z <=? 90)
    then (mkCoordinate (Some (NInt z)) (_longitude c), Returned tt)
    else (c, Raised (latitude_error (NInt z))).
Proof.
  unfold latitude_set, latitude_error. simpl.
  replace (z <? 90 + 1) with (z <=? 90) by lia.
  by destruct ((-90 <=? z) && (z <=? 90)).
Qed.

Lemma longitude_set_int z c :
  longitude_set (NInt z) c =
    if (-180 <=? z) && (z <=? 180)
    then (mkCoordinate (_latitude c) (Some (NInt z)), Returned tt)
    else (c, Raised (longitude_error (NInt z))).
Proof.
  unfold longitude_set, longitude_error. simpl.
  replace (z <? 180 + 1) with (z <=? 180) by lia.
  by destruct ((-180 <=? z) && (z <=? 180)).
Qed.

(** C2. [Coordinate(91, long)] raises the latitude [ValueError] whatever
    [long] is; [Coordinate(90, 180)] succeeds and holds 90 and 180;
    assigning [latitude = -91] raises the latitude [ValueError] and leaves
    the object as it was. In general the setters validate every
    assignment: an integer outside -90..90 (resp. -180..180) is rejected
    with the object unchanged, an integer inside is stored. *)
Theorem coordinate_validated_on_every_assignment :
  (forall long, init (NInt 91) long = Raised (latitude_error (NInt 91))) /\
  init (NInt 90) (NInt 180) =
    Returned (mkCoordinate (Some (NInt 90)) (Some (NInt 180))) /\
  (forall c, latitude_set (NInt (-91)) c = (c, Raised (latitude_error (NInt (-91))))) /\
  (forall z c, z < -90 \/ 90 < z ->
     latitude_set (NInt z) c = (c, Raised (latitude_error (NInt z)))) /\
  (forall z c, z < -180 \/ 180 < z ->
     longitude_set (NInt z) c = (c, Raised (longitude_error (NInt z)))) /\
  (forall z c, -90 <= z <= 90 ->
     latitude_set (NInt z) c = (mkCoordinate (Some (NInt z)) (longitude c), Returned tt)) /\
  (forall z c, -180 <= z <= 180 ->
     longitude_set (NInt z) c = (mkCoordinate (latitude c) (Some (NInt z)), Returned tt)) /\
  (forall v c c', latitude_set v c = (c', Returned tt) ->
     range_contains (-90) 91 v = true /\ latitude c' = Some v) /\
  (forall v c c', longitude_set v c = (c', Returned tt) ->
     range_contains (-180) 181 v = true /\ longitude c' = Some v).
Proof.
  split_and!.
  - intros long. unfold init. by rewrite latitude_set_int.
  - reflexivity.
  - intros c. by rewrite latitude_set_int.
  - intros z c Hz. rewrite latitude_set_int.
    replace ((-90 <=? z) && (z <=? 90)) with false by lia. done.
  - intros z c Hz. rewrite longitude_set_int.
    replace ((-180 <=? z) && (z <=? 180)) with false by lia. done.
  - intros z c Hz. rewrite latitude_set_int.
    replace ((-90 <=? z) && (z <=? 90)) with true by lia. done.
  - intros z c Hz. rewrite longitude_set_int.
    replace ((-180 <=? z) && (z <=? 180)) with true by lia. done.
  - intros v c c' H. apply latitude_set_returned in H. tauto.
  - intros v c c' H. apply longitude_set_returned in H. tauto.
Qed.

(** The general parts of C2 at 91 and -181 (rejected), 45 and -180 (stored). *)
Lemma coordinate_validated_witness :
  latitude_set (NInt 91) (mkCoordinate None None) =
    (mkCoordinate None None, Raised (latitude_error (NInt 91))) /\
  longitude_set (NInt (-181)) (mkCoordinate None None) =
    (mkCoordinate None None, Raised (longitude_error (NInt (-181)))) /\
  latitude_set (NInt 45) (mkCoordinate None None) =
    (mkCoordinate (Some (NInt 45)) None, Returned tt) /\
  longitude_set (NInt (-180)) (mkCoordinate None None) =
    (mkCoordinate None (Some (NInt (-180))), Returned tt).
Proof.
  destruct coordinate_validated_on_every_assignment
    as (_ & _ & _ & Hlat & Hlong & Hlat_ok & Hlong_ok & _).
  split; [apply Hlat; lia |].
  split; [apply Hlong; lia |].
  split; [apply (Hlat_ok 45); lia | apply (Hlong_ok (-180)); lia].
Defined.

(** C9. A float that equals no integer is rejected by both setters and
    by the constructor, wherever it lies: a float is in [range(lo, hi)]
    exactly when it equals one of the integers [lo .. hi-1]. *)
Theorem coordinate_rejects_non_integral_floats (f : spec_float) :
  (forall i : Z, float_eq_int f i = false) ->
  (forall c, latitude_set (NFloat f) c = (c, Raised (latitude_error (NFloat f)))) /\
  (forall c, longitude_set (NFloat f) c = (c, Raised (longitude_error (NFloat f)))) /\
  (forall long, init (NFloat f) long = Raised (latitude_error (NFloat f))) /\
  (forall z, -90 <= z <= 90 ->
     init (NInt z) (NFloat f) = Raised (longitude_error (NFloat f))) /\
  (forall lo hi g, range_contains lo hi (NFloat g) = true <->
     exists i, lo <= i < hi /\ float_eq_int g i = true).
Proof.
  intros Hf.
  assert (Hlat : forall c, latitude_set (NFloat f) c = (c, Raised (latitude_error (NFloat f)))).
  { intros c. unfold latitude_set. by rewrite range_contains_nonintegral. }
  assert (Hlong : forall c, longitude_set (NFloat f) c = (c, Raised (longitude_error (NFloat f)))).
  { intros c. unfold longitude_set. by rewrite range_contains_nonintegral. }
  split_and!; auto.
  - intros long. unfold init. by rewrite Hlat.
  - intros z Hz. unfold init. rewrite latitude_set_int.
    replace ((-90 <=? z) && (z <=? 90)) with true by lia. by rewrite Hlong.
  - intros lo hi g. apply range_contains_float.
Qed.

Lemma coordinate_rejects_45_5_witness :
  latitude_set (NFloat float_45_5) (mkCoordinate None None) =
    (mkCoordinate None None, Raised (latitude_error (NFloat float_45_5))) /\
  init (NInt 0) (NFloat float_90_5) = Raised (longitude_error (NFloat float_90_5)).
Proof.
  split.
  - apply (coordinate_rejects_non_integral_floats float_45_5).
    intros i. unfold float_eq_int, float_45_5.
    change (0 <=? -1) with false. change (2 ^ (- (-1))) with 2.
    cbv beta iota zeta. lia.
  - apply (coordinate_rejects_non_integral_floats float_90_5); [|lia].
    intros i. unfold float_eq_int, float_90_5.
    change (0 <=? -1) with false. change (2 ^ (- (-1))) with 2.
    cbv beta iota zeta. lia.
Defined.

End CoordinateTheorems.

Module RTrieTheorems.
Import RTrieM.

(** Arrays of 25 and of 27 slots are rejected with one and the same
    message, so the message does not tell which length was given. *)
Lemma rtrie_message_does_not_identify_length : ~ message_identifies_length.
Proof.
  intros H.
  specialize (H 0 (repeat None 25) (repeat None 27)
                "Invalid length provided for next list" eq_refl eq_refl).
  discriminate H.
Qed.

(** What the constructor accepts and rejects: a node built with 26
    absent children, or with the default children, is accepted and holds
    26 absent children, as is any array of 26 slots; a child array of any
    other length is rejected with [ValueError]. *)
Theorem rtrie_fixed_arity (v : Z) :
  init v (Some (repeat None 26)) = Returned (mkRTrieNode v (repeat None 26)) /\
  init v None = Returned (mkRTrieNode v (repeat None 26)) /\
  (forall nxt, length nxt = 26%nat -> init v (Some nxt) = Returned (mkRTrieNode v nxt)) /\
  (forall nxt, length nxt <> 26%nat ->
     init v (Some nxt) = Raised (ValueError "Invalid length provided for next list")).
Proof.
  split_and!.
  - reflexivity.
  - reflexivity.
  - intros nxt H. unfold init, post_init. simpl. by rewrite H.
  - intros nxt H. unfold init, post_init, size, R. simpl.
    destruct (Nat.eqb_spec (length nxt) 26); [done | reflexivity].
Qed.

Lemma rtrie_fixed_arity_witness :
  init 7 (Some (repeat None 25)) =
    Raised (ValueError "Invalid length provided for next list") /\
  init 7 (Some (repeat None 27)) =
    Raised (ValueError "Invalid length provided for next list") /\
  init 7 (Some (repeat (Some (mkRTrieNode 1 (repeat None 26))) 26)) =
    Returned (mkRTrieNode 7 (repeat (Some (mkRTrieNode 1 (repeat None 26))) 26)).
Proof.
  destruct (rtrie_fixed_arity 7) as (_ & _ & Hok & Hbad).
  split; [apply Hbad; simpl; lia |].
  split; [apply Hbad; simpl; lia | apply Hok; reflexivity].
Defined.

(** C3. The constructor accepts 26 slots and the default, and rejects 25
    and 27 slots, as the claim says. But the message of the error is the
    f-string without a placeholder, the same text for 25 and for 27
    slots: it does not carry the length that the claim says it
    identifies. *)
Theorem rtrie_error_message_omits_length :
  init 0 (Some (repeat None 26)) = Returned (mkRTrieNode 0 (repeat None 26)) /\
  init 0 None = Returned (mkRTrieNode 0 (repeat None 26)) /\
  init 0 (Some (repeat None 25)) =
    Raised (ValueError "Invalid length provided for next list") /\
  init 0 (Some (repeat None 27)) =
    Raised (ValueError "Invalid length provided for next list").
Proof. split_and!; reflexivity. Qed.

End RTrieTheorems.

Module UsersTheorems.
Import UsersM.

Lemma bad_mapper_on_row3 (r : row) :
  length r = 3%nat ->
  obind (tuple_getitem r 0) (fun r0 =>
  obind (tuple_getitem r 1) (fun r1 =>
  obind (tuple_getitem r 2) (fun r2 =>
  Returned (mkUser r0 r1 r2)))) = Returned (E := exn) (user_of_row r).
Proof.
  destruct r as [|a [|b [|c [|d r]]]]; simpl; intros H; try discriminate.
  reflexivity.
Qed.

Lemma good_mapper_on_row3 (r : row) :
  length r = 3%nat ->
  obind (unpack3 r) (fun '(user_id, first_name, last_name) =>
  Returned (mkUser user_id first_name last_name)) = Returned (E := exn) (user_of_row r).
Proof.
  destruct r as [|a [|b [|c [|d r]]]]; simpl; intros H; try discriminate.
  reflexivity.
Qed.

Lemma comprehension_total {E A B} (f : A -> outcome E B) (g : A -> B) (xs : list A) :
  Forall (fun x => f x = Returned (g x)) xs ->
  comprehension f xs = Returned (map g xs).
Proof.
  induction 1 as [|x xs Hx _ IH]; simpl; [reflexivity |].
  by rewrite Hx, IH.
Qed.

(** C7. On rows that all have three fields, the index-based mapper and
    the destructuring mapper both return, and return the same list: the
    record of each row, one per row, in the order of the rows. *)
Theorem users_mappers_agree (dbrows : list row) :
  Forall (fun r => length r = 3%nat) dbrows ->
  bad_users_from_rows dbrows = Returned (map user_of_row dbrows) /\
  users_from_rows dbrows = Returned (map user_of_row dbrows) /\
  bad_users_from_rows dbrows = users_from_rows dbrows /\
  length (map user_of_row dbrows) = length dbrows /\
  (forall i r, dbrows !! i = Some r ->
     map user_of_row dbrows !! i = Some (user_of_row r)).
Proof.
  intros H.
  assert (Hb : bad_users_from_rows dbrows = Returned (map user_of_row dbrows)).
  { apply comprehension_total. eapply Forall_impl; [exact H |].
    intros r Hr. by apply bad_mapper_on_row3. }
  assert (Hg : users_from_rows dbrows = Returned (map user_of_row dbrows)).
  { apply comprehension_total. eapply Forall_impl; [exact H |].
    intros r Hr. by apply good_mapper_on_row3. }
  split_and!; auto.
  - congruence.
  - apply length_map.
  - intros i r Hi. change (map user_of_row dbrows) with (user_of_row <$> dbrows).
    by rewrite list_lookup_fmap, Hi.
Qed.

(** C7 on the first two rows of [USERS]: an integer id and two strings. *)
Lemma users_mappers_agree_witness :
  bad_users_from_rows (USERS_upto 2) =
    Returned [mkUser (PyInt 0) (PyStr "first_name_0") (PyStr "last_name_0");
              mkUser (PyInt 1) (PyStr "first_name_1") (PyStr "last_name_1")] /\
  users_from_rows (USERS_upto 2) =
    Returned [mkUser (PyInt 0) (PyStr "first_name_0") (PyStr "last_name_0");
              mkUser (PyInt 1) (PyStr "first_name_1") (PyStr "last_name_1")].
Proof.
  assert (H : Forall (fun r : row => length r = 3%nat) (USERS_upto 2)).
  { repeat constructor. }
  destruct (users_mappers_agree (USERS_upto 2) H) as (Hb & Hg & _).
  split; [exact Hb | exact Hg].
Defined.

(** The two mappers are different functions: a 4-field row is accepted by
    the index-based one and rejected by the destructuring one. *)
Example users_mappers_differ_on_longer_rows :
  bad_users_from_rows [[PyInt 1; PyStr "a"; PyStr "b"; PyNone]] =
    Returned [mkUser (PyInt 1) (PyStr "a") (PyStr "b")] /\
  users_from_rows [[PyInt 1; PyStr "a"; PyStr "b"; PyNone]] =
    Raised (ValueError "too many values to unpack (expected 3)").
Proof. split; reflexivity. Qed.

End UsersTheorems.

Module MroTheorems.
Import MroM.

(** C8. The C3 linearizations of the two combined classes put the
    first-listed base first, and rendering gives ["module-1:name"] for
    [ConcreteModuleA12("name")] and ["module-2:test"] for
    [ConcreteModuleB23("test")]. *)
Theorem mro_rendering :
  mro "ConcreteModuleA12" =
    Some ["ConcreteModuleA12"; "BaseModule1"; "BaseModule2"; "BaseModule"; "object"] /\
  mro "ConcreteModuleB23" =
    Some ["ConcreteModuleB23"; "BaseModule2"; "BaseModule3"; "BaseModule"; "object"] /\
  (construct "ConcreteModuleA12" "name" ≫= str) = Some "module-1:name" /\
  (construct "ConcreteModuleB23" "test" ≫= str) = Some "module-2:test".
Proof. split_and!; vm_compute; reflexivity. Qed.

End MroTheorems.

Module GoodListTheorems.
Import GoodListM.

Lemma list_getitem_negative (l : list pyval) (i : Z) :
  - Z.of_nat (length l) <= i < 0 ->
  list_getitem l i = match l !! Z.to_nat (Z.of_nat (length l) + i) with
                     | Some v => Returned v
                     | None => Raised (IndexError "list index out of range")
                     end
  /\ is_Some (l !! Z.to_nat (Z.of_nat (length l) + i)).
Proof.
  intros Hi. unfold list_getitem.
  replace (i <? 0) with true by lia.
  replace ((i + Z.of_nat (length l) <? 0) || (Z.of_nat (length l) <=? i + Z.of_nat (length l)))
    with false by lia.
  replace (i + Z.of_nat (length l)) with (Z.of_nat (length l) + i) by lia.
  split; [reflexivity |].
  apply lookup_lt_is_Some. lia.
Qed.

(** C10. For a negative index [i] within the list, the read returns the
    element at position [len + i], tagged by the parity of [i] itself
    ([i % 2], never negative). When the length is odd this is the
    opposite of the parity of the position. On a 5-element list, index -1
    gives the element at position 4 tagged "[odd]" and index -2 the
    element at position 3 tagged "[even]". *)
Theorem goodlist_negative_index_tag (self : GoodList) (i : Z) :
  - Z.of_nat (length (data self)) <= i < 0 ->
  (exists v,
     data self !! Z.to_nat (Z.of_nat (length (data self)) + i) = Some v /\
     getitem self i = Returned ("[" +:+ tag i +:+ "] " +:+ py_str v)) /\
  (Z.of_nat (length (data self)) mod 2 = 1 ->
     tag i <> tag (Z.of_nat (length (data self)) + i)) /\
  (forall a b c d e,
     getitem (mkGoodList [a; b; c; d; e]) (-1) = Returned ("[odd] " +:+ py_str e) /\
     getitem (mkGoodList [a; b; c; d; e]) (-2) = Returned ("[even] " +:+ py_str d)).
Proof.
  intros Hi. split_and!.
  - destruct (list_getitem_negative (data self) i Hi) as [Hget [v Hv]].
    exists v. split; [exact Hv |].
    unfold getitem. rewrite Hget, Hv. reflexivity.
  - intros Hodd. unfold tag.
    assert (Hpar : (Z.of_nat (length (data self)) + i) mod 2 = 1 - i mod 2).
    { rewrite Z.add_mod, Hodd by lia.
      pose proof (Z.mod_pos_bound i 2 ltac:(lia)) as Hb.
      assert (Hcase : i mod 2 = 0 \/ i mod 2 = 1) by lia.
      destruct Hcase as [-> | ->]; reflexivity. }
    rewrite Hpar.
    pose proof (Z.mod_pos_bound i 2 ltac:(lia)) as Hb.
    assert (Hcase : i mod 2 = 0 \/ i mod 2 = 1) by lia.
    destruct Hcase as [-> | ->]; simpl; discriminate.
  - intros a b c d e. split; reflexivity.
Qed.

Lemma goodlist_negative_index_witness :
  getitem (mkGoodList [PyInt 10; PyInt 11; PyInt 12; PyInt 13; PyStr "last"]) (-1)
    = Returned "[odd] last" /\
  getitem (mkGoodList [PyInt 10; PyInt 11; PyInt 12; PyInt 13; PyStr "last"]) (-2)
    = Returned "[even] 13".
Proof.
  pose (l := mkGoodList [PyInt 10; PyInt 11; PyInt 12; PyInt 13; PyStr "last"]).
  destruct (goodlist_negative_index_tag l (-1) ltac:(simpl; lia)) as (_ & _ & H5).
  exact (H5 (PyInt 10) (PyInt 11) (PyInt 12) (PyInt 13) (PyStr "last")).
Defined.

End GoodListTheorems.

Module ContextTheorems.
Import ContextM.

Lemma exn_eqb_refl : forall e : exn, exn_eqb e e = true.
Proof.
  fix IH 1. intros [i | m [c|] | k i]; simpl.
  - apply Nat.eqb_refl.
  - rewrite String.eqb_refl. simpl. apply IH.
  - by rewrite String.eqb_refl.
  - by rewrite String.eqb_refl, Nat.eqb_refl.
Qed.

Lemma with_DBHandler_trace {A} (out : list string) (r : outcome exn A) :
  with_DBHandler (out, r) = (bracketed out, surfaced r).
Proof. destruct r; reflexivity. Qed.

Lemma decorated_trace {A} (out : list string) (r : outcome exn A) :
  decorated (out, r) = (bracketed out, surfaced r).
Proof. destruct r; reflexivity. Qed.

(** Thrown into the suspended generator, an exception comes back out
    after [start_database()] has run, and [__exit__] answers false. *)
Lemma gcm_exit_throw (e : exn) (args : bool) :
  gcm_exit (mkGenManager GenAtYield args) (Some e) =
    (["systemctl start postgresql.service"],
     Returned (mkGenManager GenFinished args, false)).
Proof.
  destruct e as [i | m c | k i]; unfold gcm_exit; simpl.
  - by rewrite Nat.eqb_refl.
  - change (String.eqb m m && match c with
                             | Some x => match c with Some y => exn_eqb x y | None => false end
                             | None => match c with Some _ => false | None => true end
                             end)
      with (exn_eqb (RuntimeError m c) (RuntimeError m c)).
    by rewrite exn_eqb_refl.
  - by rewrite String.eqb_refl, Nat.eqb_refl.
Qed.

Lemma with_db_handler_trace {A} (out : list string) (r : outcome exn A) :
  with_db_handler (out, r) = (bracketed out, surfaced r).
Proof.
  destruct r as [a | e].
  - reflexivity.
  - unfold with_db_handler, with_stmt.
    change (cm_exit db_handler) with gcm_exit.
    change (cm_enter db_handler new_db_handler)
      with (["systemctl stop postgresql.service"],
            Returned (E := exn) (mkGenManager GenAtYield false)).
    cbn [bind]. rewrite gcm_exit_throw. reflexivity.
Qed.

(** C1. In each of the three forms ([with DBHandler()], the decorator,
    [with db_handler()]) and for every block, whatever it prints and
    whether it returns or raises: what is printed is the stop line, then
    the block's output, then the start line once; and the block's value
    or the very exception it raised is what the caller gets. No form
    turns a raised exception into a normal end. *)
Theorem bracketing_stop_block_start {A} (out : list string) (r : outcome exn A) :
  with_DBHandler (out, r) =
    ("systemctl stop postgresql.service" :: out ++ ["systemctl start postgresql.service"],
     surfaced r)%list /\
  decorated (out, r) =
    ("systemctl stop postgresql.service" :: out ++ ["systemctl start postgresql.service"],
     surfaced r)%list /\
  with_db_handler (out, r) =
    ("systemctl stop postgresql.service" :: out ++ ["systemctl start postgresql.service"],
     surfaced r)%list /\
  (forall e : exn, surfaced r = Raised e <-> r = Raised e).
Proof.
  split_and!.
  - apply with_DBHandler_trace.
  - apply decorated_trace.
  - apply with_db_handler_trace.
  - intros e. destruct r; simpl; split; congruence.
Qed.

(** C1 on a block that prints a line and then raises. *)
Lemma bracketing_witness :
  with_db_handler (A := unit) (["pg_dump database"], Raised (OtherError "OSError" 1)) =
    (["systemctl stop postgresql.service"; "pg_dump database";
      "systemctl start postgresql.service"], Raised (OtherError "OSError" 1)) /\
  with_DBHandler (A := unit) (["pg_dump database"], Raised (StopIteration 1)) =
    (["systemctl stop postgresql.service"; "pg_dump database";
      "systemctl start postgresql.service"], Raised (StopIteration 1)).
Proof.
  split.
  - apply (bracketing_stop_block_start (A := unit) ["pg_dump database"]
             (Raised (OtherError "OSError" 1))).
  - apply (bracketing_stop_block_start (A := unit) ["pg_dump database"]
             (Raised (StopIteration 1))).
Defined.

(** The three programs as they are in the repository. *)
Example bracketing_db_backup :
  main = (["systemctl stop postgresql.service"; "pg_dump database";
           "systemctl start postgresql.service"], Returned (Some tt)) /\
  offline_backup = main /\
  with_db_handler db_backup = main.
Proof. split_and!; reflexivity. Qed.

End ContextTheorems.

Module ArnTheorems.
Import ArnM.

(** The eager loop started from any set adds the yielded ids to it. *)
Lemma eager_foldl (arns : list string) (acc : gset string) :
  foldl (fun collected_account_ids arn =>
           match re_match ARN_REGEX arn with
           | Some gd =>
               match groupdict_get "account_id" gd with
               | Some account_id => collected_account_ids ∪ {[account_id]}
               | None => collected_account_ids
               end
           | None => collected_account_ids
           end) acc arns
  = acc ∪ list_to_set (collect_account_ids_from_arns_1 arns).
Proof.
  revert acc. induction arns as [|a arns IH]; intros acc; simpl.
  - set_solver.
  - rewrite IH. unfold collect_account_ids_from_arns_1. simpl.
    destruct (re_match ARN_REGEX a) as [gd|]; simpl; [|reflexivity].
    destruct (groupdict_get "account_id" gd); simpl; [|reflexivity].
    set_solver.
Qed.

Lemma eager_is_set_of_lazy (arns : list string) :
  collect_account_ids_from_arns arns =
    list_to_set (collect_account_ids_from_arns_1 arns).
Proof. unfold collect_account_ids_from_arns. rewrite eager_foldl. set_solver. Qed.

Lemma lazy_app (l1 l2 : list string) :
  collect_account_ids_from_arns_1 (l1 ++ l2) =
    (collect_account_ids_from_arns_1 l1 ++ collect_account_ids_from_arns_1 l2)%list.
Proof. apply omap_app. Qed.

Lemma lazy_skips_non_matching (l1 l2 : list string) (a : string) :
  re_match ARN_REGEX a = None ->
  collect_account_ids_from_arns_1 (l1 ++ a :: l2) =
    collect_account_ids_from_arns_1 (l1 ++ l2).
Proof.
  intros H. rewrite !lazy_app. f_equal.
  unfold collect_account_ids_from_arns_1. simpl. by rewrite H.
Qed.

(** A string that does not start with [arn:aws:] is not matched. *)
Lemma no_prefix_no_match (a : string) :
  strip_prefix "arn:aws:" a = None -> re_match ARN_REGEX a = None.
Proof.
  intros H. unfold re_match, ARN_REGEX.
  cbn [matches consumed Nat.eqb mbind list_bind rest].
  rewrite H. reflexivity.
Qed.

Lemma matches_cat (r1 r2 : regex) (st st' : mstate) :
  st' ∈ matches (RCat r1 r2) st <->
  exists st1, st1 ∈ matches r1 st /\ st' ∈ matches r2 st1.
Proof.
  simpl. rewrite list_elem_of_bind. split; intros [st1 [H1 H2]]; exists st1; done.
Qed.

Lemma matches_text_groups (p : string) (st st' : mstate) :
  st' ∈ matches (RText p) st -> groups st' = groups st.
Proof.
  simpl. destruct (strip_prefix p (rest st)); [|by intros ?%elem_of_nil].
  by intros ->%list_elem_of_singleton.
Qed.

Lemma matches_repeat_groups cs lo hi (st st' : mstate) :
  st' ∈ matches (RRepeat cs lo hi) st -> groups st' = groups st.
Proof.
  simpl. intros H. apply list_elem_of_fmap in H. destruct H as [[n s'] [-> _]]. done.
Qed.

Lemma matches_begin_groups (st st' : mstate) :
  st' ∈ matches RBegin st -> groups st' = groups st.
Proof.
  simpl. destruct (Nat.eqb (consumed st) 0); [|by intros ?%elem_of_nil].
  by intros ->%list_elem_of_singleton.
Qed.

Lemma matches_end_groups (st st' : mstate) :
  st' ∈ matches REnd st -> groups st' = groups st.
Proof.
  simpl. destruct (at_end (rest st)); [|by intros ?%elem_of_nil].
  by intros ->%list_elem_of_singleton.
Qed.

(** Every way [ARN_REGEX] matches closes the group [account_id], once. *)
Lemma arn_match_binds_account_id (a : string) (gd : list (string * string)) :
  re_match ARN_REGEX a = Some gd ->
  exists account_id, gd = [("account_id", account_id)] /\
                     groupdict_get "account_id" gd = Some account_id.
Proof.
  unfold re_match. intros H.
  destruct (matches ARN_REGEX (mkState 0 a [])) as [|st' l] eqn:E; [discriminate |].
  simpl in H. injection H as <-.
  assert (Hin : st' ∈ matches ARN_REGEX (mkState 0 a [])) by (rewrite E; left).
  clear E. unfold ARN_REGEX in Hin.
  apply matches_cat in Hin as (s1 & H1%matches_begin_groups & Hin).
  apply matches_cat in Hin as (s2 & H2%matches_text_groups & Hin).
  apply matches_cat in Hin as (s3 & H3%matches_repeat_groups & Hin).
  apply matches_cat in Hin as (s4 & H4%matches_text_groups & Hin).
  apply matches_cat in Hin as (s5 & H5%matches_repeat_groups & Hin).
  apply matches_cat in Hin as (s6 & H6%matches_text_groups & Hin).
  apply matches_cat in Hin as (s7 & H7 & Hin).
  apply matches_cat in Hin as (s8 & H8%matches_text_groups & Hin).
  apply matches_cat in Hin as (s9 & H9%matches_repeat_groups & Hin%matches_end_groups).
  cbn [matches] in H7. apply list_elem_of_fmap in H7 as (s0 & -> & H0%matches_repeat_groups).
  simpl in H8. rewrite Hin, H9, H8, H0, H6, H5, H4, H3, H2, H1. simpl.
  eexists. split; reflexivity.
Qed.


Example arn_regex_examples :
  account_id_of "arn:aws:s3:us-east-1:100000000000:bucket/test-bucket-0" = Some "100000000000" /\
  account_id_of "arn:aws:iam::123456789012:user/x" = Some "123456789012" /\
  account_id_of "aws:s3:us-east-1:100000000000:bucket/x" = None /\
  account_id_of "arn:aws:s3:us-east-1:10000000000:bucket/x" = None /\
  account_id_of "arn:aws:s3:us-east-1:1000000000000:bucket/x" = None /\
  account_id_of "arn:aws::us-east-1:100000000000:bucket/x" = None /\
  account_id_of "arn:aws:s3:us-east-1:100000000000:" = None /\
  account_id_of "xarn:aws:s3:us-east-1:100000000000:b" = None.
Proof. split_and!; vm_compute; reflexivity. Qed.
(** The eager set holds exactly the account ids of the identifiers that
    the pattern matches. *)
Lemma eager_elements (arns : list string) (x : string) :
  x ∈ collect_account_ids_from_arns arns <->
  exists a, a ∈ arns /\ account_id_of a = Some x.
Proof.
  rewrite eager_is_set_of_lazy, elem_of_list_to_set.
  unfold collect_account_ids_from_arns_1. rewrite list_elem_of_omap.
  split; intros [a [Ha Hx]]; exists a; (split; [exact Ha |]);
    unfold account_id_of in *; destruct (re_match ARN_REGEX a); exact Hx.
Qed.

(** C4. For the five default identifiers, the generator yields the five
    ids 100000000000 .. 100000000004 in order, and the eager loop returns
    the set of exactly these five. For every input the eager set is the
    set of what the generator yields; an identifier that the pattern does
    not match can be removed from the input without changing either
    result; an identifier without the [arn:aws:] prefix is not matched;
    and the eager set holds exactly the ids of the matched identifiers. *)
Theorem arn_extraction_agree :
  collect_account_ids_from_arns_1 (generate_fake_arns_default 5) =
    map (fun i : nat => pretty (100000000000 + Z.of_nat i)) (seq 0 5) /\
  collect_account_ids_from_arns (generate_fake_arns_default 5) =
    {[ "100000000000"; "100000000001"; "100000000002";
       "100000000003"; "100000000004" ]} /\
  size (collect_account_ids_from_arns (generate_fake_arns_default 5)) = 5%nat /\
  (forall arns : list string,
     collect_account_ids_from_arns arns =
       list_to_set (collect_account_ids_from_arns_1 arns)) /\
  (forall (l1 l2 : list string) (a : string),
     re_match ARN_REGEX a = None ->
     collect_account_ids_from_arns (l1 ++ a :: l2) =
       collect_account_ids_from_arns (l1 ++ l2) /\
     collect_account_ids_from_arns_1 (l1 ++ a :: l2) =
       collect_account_ids_from_arns_1 (l1 ++ l2)) /\
  (forall a : string,
     strip_prefix "arn:aws:" a = None -> re_match ARN_REGEX a = None) /\
  (forall (arns : list string) (x : string),
     x ∈ collect_account_ids_from_arns arns <->
     exists a, a ∈ arns /\ account_id_of a = Some x).
Proof.
  split_and!.
  - vm_compute. reflexivity.
  - vm_compute. reflexivity.
  - vm_compute. reflexivity.
  - apply eager_is_set_of_lazy.
  - intros l1 l2 a H. split.
    + by rewrite !eager_is_set_of_lazy, lazy_skips_non_matching.
    + by apply lazy_skips_non_matching.
  - apply no_prefix_no_match.
  - apply eager_elements.
Qed.

(** C4 on an input with one identifier that lacks the prefix. *)
Lemma arn_extraction_witness :
  re_match ARN_REGEX "aws:s3:us-east-1:100000000009:bucket/x" = None /\
  collect_account_ids_from_arns
    (generate_fake_arns_default 2 ++
       "aws:s3:us-east-1:100000000009:bucket/x" :: generate_fake_arns_default 1) =
  collect_account_ids_from_arns
    (generate_fake_arns_default 2 ++ generate_fake_arns_default 1).
Proof.
  destruct arn_extraction_agree as (_ & _ & _ & _ & Hskip & Hprefix & _).
  assert (H : re_match ARN_REGEX "aws:s3:us-east-1:100000000009:bucket/x" = None)
    by (apply Hprefix; reflexivity).
  split; [exact H |].
  apply (Hskip (generate_fake_arns_default 2) (generate_fake_arns_default 1) _ H).
Defined.

End ArnTheorems.

Module BagTheorems.
Import BagM.

Section Correct.

Context {A : Type} (ltb eqb : A -> A -> bool).

(** The elements are comparable: [<] is a strict weak order, and [==]
    holds exactly between elements that [<] does not separate. *)
Hypothesis ltb_irrefl : forall x, ltb x x = false.
Hypothesis ltb_trans :
  forall x y z, ltb x y = true -> ltb y z = true -> ltb x z = true.
Hypothesis ltb_negtrans :
  forall x y z, ltb x z = true -> ltb x y = true \/ ltb y z = true.
Hypothesis eqb_ltb :
  forall x y, eqb x y = true <-> ltb x y = false /\ ltb y x = false.

Lemma ltb_asym x y : ltb x y = true -> ltb y x = false.
Proof.
  intros H. destruct (ltb y x) eqn:E; [|reflexivity].
  pose proof (ltb_trans _ _ _ H E) as H'. by rewrite ltb_irrefl in H'.
Qed.

Lemma not_after_trans a b c : not_after ltb a b -> not_after ltb b c -> not_after ltb a c.
Proof.
  unfold not_after. intros Hab Hbc.
  destruct (ltb c a) eqn:E; [|reflexivity].
  destruct (ltb_negtrans c b a E) as [H | H]; congruence.
Qed.

Lemma insort_perm (x : A) (l : list A) : insort ltb x l ≡ₚ x :: l.
Proof.
  induction l as [|y l IH]; simpl; [reflexivity |].
  destruct (ltb y x); [|reflexivity].
  rewrite IH. apply Permutation_swap.
Qed.

Lemma sorted_perm (input : list A) : sorted ltb input ≡ₚ input.
Proof.
  induction input as [|x l IH]; simpl; [reflexivity |].
  rewrite insort_perm. by rewrite IH.
Qed.

Lemma insort_sorted (x : A) (l : list A) :
  StronglySorted (not_after ltb) l -> StronglySorted (not_after ltb) (insort ltb x l).
Proof.
  induction 1 as [|y l Hs IH Hy]; simpl.
  - repeat constructor.
  - destruct (ltb y x) eqn:E.
    + constructor; [exact IH |].
      rewrite insort_perm. constructor; [|exact Hy].
      unfold not_after. by apply ltb_asym.
    + constructor; [by constructor |].
      constructor; [exact E |].
      eapply Forall_impl; [exact Hy |].
      intros z Hz. by apply (not_after_trans x y z).
Qed.

Lemma sorted_sorted (input : list A) : StronglySorted (not_after ltb) (sorted ltb input).
Proof.
  induction input as [|x l IH]; simpl; [constructor | by apply insort_sorted].
Qed.

Lemma sorted_lookup (l : list A) (i j : nat) (a b : A) :
  StronglySorted (not_after ltb) l -> (i <= j)%nat ->
  l !! i = Some a -> l !! j = Some b -> not_after ltb a b.
Proof.
  intros Hs. revert i j. induction Hs as [|y l Hs IH Hy]; intros i j Hij Hi Hj.
  - by rewrite lookup_nil in Hi.
  - destruct i as [|i], j as [|j]; simpl in *; try lia.
    + injection Hi as <-. injection Hj as <-. apply ltb_irrefl.
    + injection Hi as <-. rewrite Forall_forall in Hy. apply Hy.
      by eapply list_elem_of_lookup_2.
    + apply (IH i j); [lia | done | done].
Qed.

Lemma mid_bounds (lo hi : nat) :
  (lo < hi)%nat -> (lo <= (lo + hi) / 2 < hi)%nat.
Proof.
  intros H. pose proof (Nat.div_mod_eq (lo + hi) 2).
  pose proof (Nat.mod_upper_bound (lo + hi) 2). lia.
Qed.

(** Below a smaller element everything is smaller; from a non-smaller
    element on nothing is smaller. *)
Lemma sorted_below (a : list A) (x v w : A) (m i : nat) :
  StronglySorted (not_after ltb) a -> a !! m = Some v -> ltb v x = true ->
  (i <= m)%nat -> a !! i = Some w -> ltb w x = true.
Proof.
  intros Hs Hm Hv Hi Hw.
  pose proof (sorted_lookup a i m w v Hs Hi Hw Hm) as Hwv. unfold not_after in Hwv.
  destruct (ltb_negtrans v w x Hv) as [H | H]; congruence.
Qed.

Lemma sorted_above (a : list A) (x v w : A) (m i : nat) :
  StronglySorted (not_after ltb) a -> a !! m = Some v -> ltb v x = false ->
  (m <= i)%nat -> a !! i = Some w -> ltb w x = false.
Proof.
  intros Hs Hm Hv Hi Hw.
  pose proof (sorted_lookup a m i v w Hs Hi Hm Hw) as Hvw. unfold not_after in Hvw.
  destruct (ltb w x) eqn:E; [|reflexivity].
  destruct (ltb_negtrans w v x E) as [H | H]; congruence.
Qed.

(** The loop returns, and what it returns splits the list: before it
    every element is smaller than [x], from it on none is. *)
Lemma bisect_loop_spec (a : list A) (x : A) (lo hi : nat) :
  StronglySorted (not_after ltb) a ->
  (lo <= hi <= length a)%nat ->
  (forall i v, (i < lo)%nat -> a !! i = Some v -> ltb v x = true) ->
  (forall i v, (hi <= i)%nat -> a !! i = Some v -> ltb v x = false) ->
  exists r, bisect_loop ltb a x lo hi = Some r /\ (lo <= r <= hi)%nat /\
    (forall i v, (i < r)%nat -> a !! i = Some v -> ltb v x = true) /\
    (forall i v, (r <= i)%nat -> a !! i = Some v -> ltb v x = false).
Proof.
  intros Hs. funelim (bisect_loop ltb a x lo hi).
  all: intros Hb Hlo Hhi.
  all: try match goal with Hlt : (?l < ?h)%nat |- _ =>
             pose proof (mid_bounds l h Hlt) as Hmid end.
  - exists lo. split_and!; [reflexivity | lia | lia | exact Hlo |].
    intros i v Hi. apply Hhi. lia.
  - match goal with Hn : a !! _ = None |- _ => apply lookup_ge_None in Hn end. lia.
  - match goal with
    | IH : StronglySorted _ _ -> _, Hv : ltb ?v x = true, Hm : a !! _ = Some ?v |- _ =>
        destruct (IH Hs) as (r & Hr & Hrb & Hr1 & Hr2);
          [lia | | exact Hhi |]
    end.
    + intros i w Hi Hw.
      match goal with Hm : a !! _ = Some ?v |- _ =>
        apply (sorted_below a x v w _ i Hs Hm); [done | lia | done] end.
    + exists r. split_and!; [exact Hr | lia | lia | exact Hr1 | exact Hr2].
  - match goal with
    | IH : StronglySorted _ _ -> _, Hv : ltb ?v x = false, Hm : a !! _ = Some ?v |- _ =>
        destruct (IH Hs) as (r & Hr & Hrb & Hr1 & Hr2);
          [lia | exact Hlo | |]
    end.
    + intros i w Hi Hw.
      match goal with Hm : a !! _ = Some ?v |- _ =>
        apply (sorted_above a x v w _ i Hs Hm); [done | lia | done] end.
    + exists r. split_and!; [exact Hr | lia | lia | exact Hr1 | exact Hr2].
Qed.

(** [bisect_left] returns the left-most insertion point. *)
Lemma bisect_left_spec (a : list A) (x : A) :
  StronglySorted (not_after ltb) a ->
  exists r, bisect_left ltb a x = Some r /\ (r <= length a)%nat /\
    (forall i v, (i < r)%nat -> a !! i = Some v -> ltb v x = true) /\
    (forall i v, (r <= i)%nat -> a !! i = Some v -> ltb v x = false).
Proof.
  intros Hs. unfold bisect_left.
  destruct (bisect_loop_spec a x 0 (length a) Hs) as (r & Hr & Hb & H1 & H2).
  - lia.
  - intros i v Hi. lia.
  - intros i v Hi Hv. apply lookup_lt_Some in Hv. lia.
  - exists r. split_and!; [exact Hr | lia | exact H1 | exact H2].
Qed.

Lemma existsb_perm (P : A -> bool) (l1 l2 : list A) :
  l1 ≡ₚ l2 -> existsb P l1 = existsb P l2.
Proof.
  intros Hp. apply eq_true_iff_eq. rewrite !existsb_exists.
  split; intros [y [Hy HP]]; exists y; (split; [|exact HP]);
    apply list_elem_of_In; apply list_elem_of_In in Hy.
  - by rewrite <- Hp.
  - by rewrite Hp.
Qed.

(** Membership on a sorted list is the search for an equal element. *)
Lemma contains_sorted (a : list A) (x : A) :
  StronglySorted (not_after ltb) a ->
  contains ltb eqb (mkBag a) x = Some (existsb (fun e => eqb e x) a).
Proof.
  intros Hs. unfold contains. simpl.
  destruct (bisect_left_spec a x Hs) as (r & -> & Hb & H1 & H2). simpl.
  destruct (Nat.ltb_spec r (length a)) as [Hlt | Hge].
  - destruct (lookup_lt_is_Some_2 a r Hlt) as [v Hv]. rewrite Hv. simpl. f_equal.
    destruct (eqb v x) eqn:E.
    + symmetry. apply existsb_exists. exists v. split; [|exact E].
      apply list_elem_of_In. by eapply list_elem_of_lookup_2.
    + symmetry. apply not_true_is_false. intros Hex.
      apply existsb_exists in Hex. destruct Hex as [e [He Hex]].
      apply list_elem_of_In, list_elem_of_lookup_1 in He. destruct He as [p Hp].
      apply eqb_ltb in Hex. destruct Hex as [Hex1 Hex2].
      assert (Hrp : (r <= p)%nat).
      { destruct (Nat.le_gt_cases r p) as [|Hpr]; [done |].
        rewrite (H1 p e Hpr Hp) in Hex1. discriminate. }
      assert (Hvx : ltb v x = false) by (apply (H2 r v); [lia | done]).
      assert (Hxv : ltb x v = false).
      { destruct (ltb x v) eqn:Exv; [|reflexivity].
        pose proof (sorted_lookup a r p v e Hs Hrp Hv Hp) as Hve. unfold not_after in Hve.
        destruct (ltb_negtrans x e v Exv) as [H | H]; congruence. }
      assert (Heq : eqb v x = true) by (apply eqb_ltb; done).
      congruence.
  - f_equal. symmetry. apply not_true_is_false. intros Hex.
    apply existsb_exists in Hex. destruct Hex as [e [He Hex]].
    apply list_elem_of_In, list_elem_of_lookup_1 in He. destruct He as [p Hp].
    apply eqb_ltb in Hex. destruct Hex as [Hex1 Hex2].
    pose proof (lookup_lt_Some _ _ _ Hp) as Hpl.
    rewrite (H1 p e ltac:(lia) Hp) in Hex1. discriminate.
Qed.

(** C5. For comparable elements, the membership test on the bag built
    from [input] returns, and is true exactly when some element of
    [input] compares equal to [x]. So it is true for every element of
    the input, false for a value greater than all of them, and false on
    the empty bag. It is computed from the left-most insertion point of
    [x] in the sorted copy (every element before it is smaller than [x],
    none from it on is), by the bounds check and the comparison there. *)
Theorem bag_membership (input : list A) (x : A) :
  contains ltb eqb (init ltb input) x = Some (existsb (fun e => eqb e x) input) /\
  (contains ltb eqb (init ltb input) x = Some true <->
     exists e, e ∈ input /\ eqb e x = true) /\
  (x ∈ input -> contains ltb eqb (init ltb input) x = Some true) /\
  ((forall e, e ∈ input -> ltb e x = true) ->
     contains ltb eqb (init ltb input) x = Some false) /\
  contains ltb eqb (init ltb []) x = Some false /\
  sorted ltb input ≡ₚ input /\
  StronglySorted (fun a b => ltb b a = false) (sorted ltb input) /\
  (exists idx,
     bisect_left ltb (sorted ltb input) x = Some idx /\
     (idx <= length input)%nat /\
     (forall i v, (i < idx)%nat -> sorted ltb input !! i = Some v -> ltb v x = true) /\
     (forall i v, (idx <= i)%nat -> sorted ltb input !! i = Some v -> ltb v x = false) /\
     contains ltb eqb (init ltb input) x =
       Some ((idx <? length input)%nat &&
             match sorted ltb input !! idx with
             | Some v => eqb v x
             | None => false
             end)).
Proof.
  assert (Hmain : contains ltb eqb (init ltb input) x =
                    Some (existsb (fun e => eqb e x) input)).
  { unfold init. rewrite contains_sorted by apply sorted_sorted.
    f_equal. apply existsb_perm, sorted_perm. }
  assert (Hiff : contains ltb eqb (init ltb input) x = Some true <->
                 exists e, e ∈ input /\ eqb e x = true).
  { rewrite Hmain. split.
    - intros [= H]. apply existsb_exists in H. destruct H as [e [He Hex]].
      exists e. split; [by apply list_elem_of_In | done].
    - intros [e [He Hex]]. f_equal. apply existsb_exists. exists e.
      split; [by apply list_elem_of_In | done]. }
  split_and!.
  - exact Hmain.
  - exact Hiff.
  - intros Hx. apply Hiff. exists x. split; [done |].
    apply eqb_ltb. by rewrite ltb_irrefl.
  - intros Hall. rewrite Hmain. f_equal. apply not_true_is_false. intros H.
    apply existsb_exists in H. destruct H as [e [He Hex]].
    apply eqb_ltb in Hex. apply list_elem_of_In in He.
    rewrite (Hall e He) in Hex. by destruct Hex.
  - reflexivity.
  - apply sorted_perm.
  - apply sorted_sorted.
  - destruct (bisect_left_spec (sorted ltb input) x (sorted_sorted input))
      as (idx & Hidx & Hb & H1 & H2).
    rewrite (Permutation_length (sorted_perm input)) in Hb.
    exists idx. split_and!; [exact Hidx | exact Hb | exact H1 | exact H2 |].
    unfold contains, init. simpl. rewrite Hidx. simpl.
    rewrite (Permutation_length (sorted_perm input)).
    destruct (idx <? length input)%nat eqn:E; [|reflexivity]. simpl.
    apply Nat.ltb_lt in E.
    destruct (lookup_lt_is_Some_2 (sorted ltb input) idx) as [v ->];
      [by rewrite (Permutation_length (sorted_perm input)) | reflexivity].
Qed.

End Correct.

(** C5 on integers: the bag of [3; 1; 2; 5; 4; 1]. *)
Lemma bag_membership_witness :
  contains Z.ltb Z.eqb (init Z.ltb [3; 1; 2; 5; 4; 1]) 4 = Some true /\
  contains Z.ltb Z.eqb (init Z.ltb [3; 1; 2; 5; 4; 1]) 6 = Some false /\
  contains Z.ltb Z.eqb (init Z.ltb [3; 1; 2; 5; 4; 1]) 0 = Some false.
Proof.
  assert (H : forall x : Z,
             contains Z.ltb Z.eqb (init Z.ltb [3; 1; 2; 5; 4; 1]) x =
               Some (existsb (fun e => Z.eqb e x) [3; 1; 2; 5; 4; 1])).
  { intros x.
    apply (bag_membership Z.ltb Z.eqb
             ltac:(intros; lia) ltac:(intros; lia) ltac:(intros; lia)
             ltac:(intros; lia) [3; 1; 2; 5; 4; 1] x). }
  split_and!; apply H.
Defined.

End BagTheorems.

Module CallCountRunTheorems.
Import CallCountM CallCountProps CallCountRun.

Lemma get_count_call k k' c :
  fst (get_count k' (snd (call k c))) =
    fst (get_count k' c) + (if decide (k = k') then 1 else 0).
Proof.
  rewrite call_spec. unfold get_count. simpl.
  destruct (decide (k = k')) as [-> | Hne].
  - by rewrite lookup_insert_eq.
  - rewrite lookup_insert_ne by done. lia.
Qed.

Lemma occurrences_cons k k0 ks :
  occurrences k (k0 :: ks) = (if decide (k0 = k) then 1 else 0) + occurrences k ks.
Proof.
  unfold occurrences. rewrite filter_cons.
  destruct (decide (k0 = k)); simpl; lia.
Qed.

Lemma call_all_cons k ks c :
  call_all (k :: ks) c =
    (fst (call k c) :: fst (call_all ks (snd (call k c))),
     snd (call_all ks (snd (call k c)))).
Proof.
  simpl. destruct (call k c) as [r c1]. simpl.
  by destruct (call_all ks c1).
Qed.

Lemma get_count_call_all ks : forall c k,
  fst (get_count k (snd (call_all ks c))) = fst (get_count k c) + occurrences k ks.
Proof.
  induction ks as [|k0 ks IH]; intros c k.
  - unfold occurrences. simpl. lia.
  - rewrite call_all_cons. cbn [snd]. rewrite IH, get_count_call, occurrences_cons. lia.
Qed.

Lemma call_all_returns ks : forall c i ki,
  ks !! i = Some ki ->
  fst (call_all ks c) !! i =
    Some (fst (get_count ki c) + occurrences ki (take (S i) ks)).
Proof.
  induction ks as [|k0 ks IH]; intros c i ki Hi; [by rewrite lookup_nil in Hi |].
  rewrite call_all_cons. destruct i as [|i]; cbn [fst snd lookup list_lookup take] in *.
  - injection Hi as ->. rewrite call_spec. cbn [fst]. rewrite take_0.
    rewrite occurrences_cons. rewrite decide_True by done.
    unfold occurrences, get_count. simpl. f_equal; lia.
  - rewrite (IH _ i ki Hi), get_count_call, occurrences_cons.
    f_equal; destruct (decide (k0 = ki)); lia.
Qed.

(** X1. Whatever counts an instance starts with, after the calls
    [counter(k)] for a list of keys the count of each key is its count
    before plus the number of times it is in the list, and each call
    returned the count its key had reached at that point. *)
Theorem callcount_counts_occurrences (initial : option (gmap key Z))
    (ks : list key) (k : key) :
  fst (get_count k (snd (call_all ks (init initial)))) =
    default 0 (default ∅ initial !! k) + occurrences k ks /\
  (forall i ki, ks !! i = Some ki ->
     fst (call_all ks (init initial)) !! i =
       Some (default 0 (default ∅ initial !! ki) + occurrences ki (take (S i) ks))) /\
  length (fst (call_all ks (init initial))) = length ks.
Proof.
  split_and!.
  - by rewrite get_count_call_all.
  - intros i ki Hi. by rewrite (call_all_returns ks _ i ki Hi).
  - generalize (init initial). induction ks as [|k0 ks IH]; intros c; [done |].
    rewrite call_all_cons. simpl. by rewrite IH.
Qed.

Lemma callcount_counts_occurrences_witness :
  fst (call_all [KStr "a"; KInt 1; KStr "a"; KNone; KStr "a"]
         (init (Some {[ KStr "a" := 10 ]}))) !! 4%nat = Some 13.
Proof.
  destruct (callcount_counts_occurrences (Some {[ KStr "a" := 10 ]})
              [KStr "a"; KInt 1; KStr "a"; KNone; KStr "a"] (KStr "a"))
    as (_ & H & _).
  exact (H 4%nat (KStr "a") eq_refl).
Defined.

(** X2. [reset(k)] for a key other than [None] sets the count of [k] to
    0 and leaves every other count as it was; the entry of [k] stays in
    the table (it is created if it was absent), and the next call with
    [k] returns 1. [reset(None)] is [reset()]: it empties the table, so
    the count of the key [None] cannot be reset on its own. *)
Theorem callcount_reset_one_key (k : key) (c : CallCount) :
  k <> KNone ->
  (forall k', fst (get_count k' (reset k c)) =
     if decide (k' = k) then 0 else fst (get_count k' c)) /\
  dom (_counts (reset k c)) = {[ k ]} ∪ dom (_counts c) /\
  fst (call k (reset k c)) = 1 /\
  _counts (reset KNone c) = ∅.
Proof.
  intros Hk.
  assert (Hr : reset k c = mkCallCount (<[k := 0]> (_counts c))) by by destruct k.
  rewrite Hr. split_and!.
  - intros k'. unfold get_count. simpl. destruct (decide (k' = k)) as [-> | Hne].
    + by rewrite lookup_insert_eq.
    + by rewrite lookup_insert_ne.
  - simpl. apply dom_insert_L.
  - rewrite call_spec. simpl. by rewrite lookup_insert_eq.
  - reflexivity.
Qed.

Lemma callcount_reset_one_key_witness :
  fst (get_count (KInt 7) (reset (KStr "a") (snd (call (KInt 7) (snd (call (KStr "a") (init None)))))))
    = 1 /\
  fst (get_count (KStr "a") (reset (KStr "a") (snd (call (KInt 7) (snd (call (KStr "a") (init None)))))))
    = 0.
Proof.
  pose (c := snd (call (KInt 7) (snd (call (KStr "a") (init None))))).
  destruct (callcount_reset_one_key (KStr "a") c ltac:(discriminate)) as (H & _).
  split; [exact (H (KInt 7)) | exact (H (KStr "a"))].
Defined.

(** X3. A call creates the entry of its key and touches no other entry;
    reading a count with [get_count] creates nothing, also for a key
    never seen. *)
Theorem callcount_call_touches_one_entry (k : key) (c : CallCount) :
  dom (_counts (snd (call k c))) = {[ k ]} ∪ dom (_counts c) /\
  (forall k', k' <> k -> _counts (snd (call k c)) !! k' = _counts c !! k') /\
  (forall k', _counts c !! k' = None ->
     get_count k' c = (0, c) /\ _counts (snd (get_count k' c)) !! k' = None).
Proof.
  rewrite call_spec. simpl. split_and!.
  - apply dom_insert_L.
  - intros k' Hne. by rewrite lookup_insert_ne.
  - intros k' Hk'. unfold get_count. simpl. by rewrite Hk'.
Qed.

Lemma callcount_call_touches_one_entry_witness :
  _counts (snd (call (KStr "a") (init None))) !! KStr "b" = None /\
  get_count (KStr "b") (init None) = (0, init None).
Proof.
  destruct (callcount_call_touches_one_entry (KStr "a") (init None)) as (_ & H1 & H2).
  split; [by rewrite H1 | by apply H2].
Defined.

End CallCountRunTheorems.

Module CoordinateRunTheorems.
Import CoordinateM CoordinateProps CoordinateRun.

Lemma latitude_set_cases v c :
  latitude_set v c =
    if range_contains (-90) 91 v
    then (mkCoordinate (Some v) (_longitude c), Returned tt)
    else (c, Raised (latitude_error v)).
Proof.
  unfold latitude_set, latitude_error. change (90 + 1) with 91.
  by destruct (range_contains (-90) 91 v).
Qed.

Lemma longitude_set_cases v c :
  longitude_set v c =
    if range_contains (-180) 181 v
    then (mkCoordinate (_latitude c) (Some v), Returned tt)
    else (c, Raised (longitude_error v)).
Proof.
  unfold longitude_set, longitude_error. change (180 + 1) with 181.
  by destruct (range_contains (-180) 181 v).
Qed.

Lemma assign_in_bounds a c : in_bounds c = true -> in_bounds (assign a c) = true.
Proof.
  unfold in_bounds, latitude, longitude. destruct c as [[la|] [lo|]]; simpl; try discriminate.
  intros H. apply andb_true_iff in H as [Hla Hlo].
  destruct a as [v | v]; simpl.
  - rewrite latitude_set_cases. destruct (range_contains (-90) 91 v) eqn:E; simpl.
    + by rewrite E, Hlo.
    + by rewrite Hla, Hlo.
  - rewrite longitude_set_cases. destruct (range_contains (-180) 181 v) eqn:E; simpl.
    + by rewrite E, Hla.
    + by rewrite Hla, Hlo.
Qed.

Lemma init_cases lat long :
  init lat long =
    if range_contains (-90) 91 lat then
      if range_contains (-180) 181 long
      then Returned (mkCoordinate (Some lat) (Some long))
      else Raised (longitude_error long)
    else Raised (latitude_error lat).
Proof.
  unfold init. rewrite latitude_set_cases.
  destruct (range_contains (-90) 91 lat); [|reflexivity].
  rewrite longitude_set_cases.
  by destruct (range_contains (-180) 181 long).
Qed.

Lemma assign_all_in_bounds ops : forall c,
  in_bounds c = true -> in_bounds (assign_all ops c) = true.
Proof.
  unfold assign_all. induction ops as [|a ops IH]; intros c Hc; [done |].
  simpl. apply IH. by apply assign_in_bounds.
Qed.

(** X4. A coordinate that was constructed holds a latitude and a
    longitude of their ranges, and keeps doing so through any sequence of
    assignments to the two properties, accepted or rejected. *)
Theorem coordinate_stays_in_bounds (lat long : num) (c : Coordinate)
    (ops : list assignment) :
  init lat long = Returned c ->
  in_bounds c = true /\ in_bounds (assign_all ops c) = true.
Proof.
  intros Hinit.
  assert (Hc : in_bounds c = true).
  { rewrite init_cases in Hinit.
    destruct (range_contains (-90) 91 lat) eqn:Ela; [|discriminate].
    destruct (range_contains (-180) 181 long) eqn:Elo; [|discriminate].
    injection Hinit as <-. unfold in_bounds. simpl. by rewrite Ela, Elo. }
  split; [exact Hc | by apply assign_all_in_bounds].
Qed.

Lemma coordinate_stays_in_bounds_witness :
  in_bounds
    (assign_all [SetLatitude (NInt 91); SetLongitude (NInt (-180));
                 SetLatitude (NFloat float_45_5); SetLatitude (NInt (-90))]
       (mkCoordinate (Some (NInt 50)) (Some (NInt 10)))) = true.
Proof.
  apply (coordinate_stays_in_bounds (NInt 50) (NInt 10)
           (mkCoordinate (Some (NInt 50)) (Some (NInt 10)))
           [SetLatitude (NInt 91); SetLongitude (NInt (-180));
            SetLatitude (NFloat float_45_5); SetLatitude (NInt (-90))]).
  reflexivity.
Defined.

(** X5. A float that equals an integer of the range is accepted by the
    setter and stored as the float it is, with no conversion: 45.0, 90.0
    and -0.0 are valid latitudes. *)
Theorem coordinate_accepts_integral_floats (f : spec_float) (i : Z) (c : Coordinate) :
  float_eq_int f i = true ->
  (-90 <= i <= 90 ->
     latitude_set (NFloat f) c =
       (mkCoordinate (Some (NFloat f)) (longitude c), Returned tt)) /\
  (-180 <= i <= 180 ->
     longitude_set (NFloat f) c =
       (mkCoordinate (latitude c) (Some (NFloat f)), Returned tt)).
Proof.
  intros Hf. split; intros Hi.
  - rewrite latitude_set_cases.
    assert (H : range_contains (-90) 91 (NFloat f) = true).
    { apply range_contains_float. exists i. split; [lia | done]. }
    by rewrite H.
  - rewrite longitude_set_cases.
    assert (H : range_contains (-180) 181 (NFloat f) = true).
    { apply range_contains_float. exists i. split; [lia | done]. }
    by rewrite H.
Qed.

Lemma coordinate_accepts_integral_floats_witness :
  latitude_set (NFloat float_45_0) (mkCoordinate None None) =
    (mkCoordinate (Some (NFloat float_45_0)) None, Returned tt) /\
  latitude_set (NFloat float_90_0) (mkCoordinate None None) =
    (mkCoordinate (Some (NFloat float_90_0)) None, Returned tt) /\
  longitude_set (NFloat float_neg_zero) (mkCoordinate None None) =
    (mkCoordinate None (Some (NFloat float_neg_zero)), Returned tt).
Proof.
  split_and!.
  - apply (coordinate_accepts_integral_floats float_45_0 45); [reflexivity | lia].
  - apply (coordinate_accepts_integral_floats float_90_0 90); [reflexivity | lia].
  - apply (coordinate_accepts_integral_floats float_neg_zero 0); [reflexivity | lia].
Defined.

(** X6. Construction succeeds exactly when both arguments are in their
    ranges, and then the object holds them. The latitude is validated
    first: with an invalid latitude the error is the latitude's, whatever
    the longitude is; the longitude's error means the latitude was valid. *)
Theorem coordinate_construction_cases (lat long : num) :
  (forall c, init lat long = Returned c <->
     range_contains (-90) 91 lat = true /\
     range_contains (-180) 181 long = true /\
     c = mkCoordinate (Some lat) (Some long)) /\
  (range_contains (-90) 91 lat = false ->
     init lat long = Raised (latitude_error lat)) /\
  (forall e, init lat long = Raised e ->
     e = latitude_error lat /\ range_contains (-90) 91 lat = false \/
     e = longitude_error long /\ range_contains (-90) 91 lat = true /\
       range_contains (-180) 181 long = false).
Proof.
  rewrite init_cases. split_and!.
  - intros c. destruct (range_contains (-90) 91 lat), (range_contains (-180) 181 long);
      split; try (intros [= <-]; done); try (intros (? & ? & ?); discriminate).
    intros (_ & _ & ->). reflexivity.
  - by intros ->.
  - intros e. destruct (range_contains (-90) 91 lat), (range_contains (-180) 181 long);
      intros [= <-]; auto.
Qed.

Lemma coordinate_construction_cases_witness :
  init (NInt 91) (NInt 181) = Raised (latitude_error (NInt 91)).
Proof.
  destruct (coordinate_construction_cases (NInt 91) (NInt 181)) as (_ & H & _).
  apply H. reflexivity.
Defined.

End CoordinateRunTheorems.

Module UsersRunTheorems.
Import UsersM UsersRun.

Lemma comprehension_returned {E A B} (f : A -> outcome E B) (xs : list A) (ys : list B) :
  comprehension f xs = Returned ys <-> Forall2 (fun x y => f x = Returned y) xs ys.
Proof.
  revert ys. induction xs as [|x xs IH]; intros ys; simpl.
  - split.
    + intros [= <-]. constructor.
    + intros H. by inversion H.
  - destruct (f x) as [y | e] eqn:Ef; simpl.
    + destruct (comprehension f xs) as [ys' | e] eqn:Ec; simpl.
      * split.
        -- intros [= <-]. constructor; [done | by apply IH].
        -- intros H. inversion H as [|? y0 ? ys0 Hy Hys]; subst.
           apply IH in Hys. congruence.
      * split; [discriminate |].
        intros H. inversion H as [|? y0 ? ys0 Hy Hys]; subst.
        apply IH in Hys. discriminate.
    + split; [discriminate |].
      intros H. inversion H as [|? y0 ? ys0 Hy Hys]; subst. congruence.
Qed.

(** The first element on which [f] raises decides the exception. *)
Lemma comprehension_raised {E A B} (f : A -> outcome E B) (pre post : list A)
    (x : A) (e : E) :
  Forall (fun x' => exists y, f x' = Returned y) pre ->
  f x = Raised e ->
  comprehension f (pre ++ x :: post) = Raised e.
Proof.
  intros Hpre Hx. induction Hpre as [|x' pre [y Hy] _ IH]; simpl.
  - by rewrite Hx.
  - by rewrite Hy, IH.
Qed.

Lemma bad_is_by_index dbrows :
  bad_users_from_rows dbrows = comprehension by_index dbrows.
Proof. reflexivity. Qed.

Lemma good_is_by_unpacking dbrows :
  users_from_rows dbrows = comprehension by_unpacking dbrows.
Proof. reflexivity. Qed.

Lemma by_index_returned r u :
  by_index r = Returned u <-> (3 <= length r)%nat /\ u = user_of_row r.
Proof.
  destruct r as [|a [|b [|c r]]]; simpl; unfold by_index; simpl;
    (split; [try discriminate | intros [H ->]; try (simpl in H; lia)]).
  - intros [= <-]. split; [lia | reflexivity].
  - reflexivity.
Qed.

Lemma by_index_short r :
  (length r < 3)%nat -> by_index r = Raised (IndexError "tuple index out of range").
Proof.
  destruct r as [|a [|b [|c r]]]; simpl; intros H; try lia; reflexivity.
Qed.

Lemma by_unpacking_returned r u :
  by_unpacking r = Returned u <-> length r = 3%nat /\ u = user_of_row r.
Proof.
  destruct r as [|a [|b [|c [|d r]]]]; simpl; unfold by_unpacking; simpl;
    (split; [try discriminate | intros [H ->]; try (simpl in H; lia)]).
  - intros [= <-]. split; reflexivity.
  - reflexivity.
Qed.

Lemma by_unpacking_short r :
  (length r < 3)%nat ->
  by_unpacking r =
    Raised (ValueError ("not enough values to unpack (expected 3, got "
                          +:+ pretty (length r) +:+ ")")).
Proof.
  destruct r as [|a [|b [|c r]]]; simpl; intros H; try lia; reflexivity.
Qed.

Lemma by_unpacking_long r :
  (3 < length r)%nat ->
  by_unpacking r = Raised (ValueError "too many values to unpack (expected 3)").
Proof.
  destruct r as [|a [|b [|c [|d r]]]]; simpl; intros H; try lia; reflexivity.
Qed.

Lemma Forall2_map_iff {A B} (P : A -> Prop) (g : A -> B) (f : A -> B -> Prop)
    (xs : list A) (ys : list B) :
  (forall x y, f x y <-> P x /\ y = g x) ->
  Forall2 f xs ys <-> Forall P xs /\ ys = map g xs.
Proof.
  intros Hf. split.
  - induction 1 as [|x y xs ys Hxy _ [IH1 IH2]]; [by split |].
    apply Hf in Hxy as [HP ->]. split; [by constructor | by rewrite IH2].
  - intros [HP ->]. induction HP as [|x xs Hx _ IH]; simpl; constructor; [|exact IH].
    apply Hf. by split.
Qed.

Lemma users_from_rows_returned dbrows us :
  users_from_rows dbrows = Returned us <->
  Forall (fun r => length r = 3%nat) dbrows /\ us = map user_of_row dbrows.
Proof.
  rewrite good_is_by_unpacking, comprehension_returned.
  apply Forall2_map_iff. intros r u. apply by_unpacking_returned.
Qed.

Lemma bad_users_from_rows_returned dbrows us :
  bad_users_from_rows dbrows = Returned us <->
  Forall (fun r => (3 <= length r)%nat) dbrows /\ us = map user_of_row dbrows.
Proof.
  rewrite bad_is_by_index, comprehension_returned.
  apply Forall2_map_iff. intros r u. apply by_index_returned.
Qed.

(** X7. The destructuring mapper returns exactly when every row has
    three fields, the index-based mapper exactly when every row has at
    least three; each then returns the records of the rows' first three
    fields in order. So the index-based mapper silently accepts longer
    rows that the destructuring mapper refuses. *)
Theorem users_mappers_success (dbrows : list row) (us : list User) :
  (users_from_rows dbrows = Returned us <->
     Forall (fun r => length r = 3%nat) dbrows /\ us = map user_of_row dbrows) /\
  (bad_users_from_rows dbrows = Returned us <->
     Forall (fun r => (3 <= length r)%nat) dbrows /\ us = map user_of_row dbrows) /\
  (users_from_rows dbrows = Returned us -> bad_users_from_rows dbrows = Returned us).
Proof.
  pose proof (users_from_rows_returned dbrows us) as Hg.
  pose proof (bad_users_from_rows_returned dbrows us) as Hb.
  split_and!; [exact Hg | exact Hb |].
  intros H. apply Hb. apply Hg in H as [H ->]. split; [|reflexivity].
  eapply Forall_impl; [exact H |]. simpl. intros r ->. lia.
Qed.

Lemma users_mappers_success_witness :
  bad_users_from_rows [[PyInt 1; PyStr "a"; PyStr "b"]; [PyInt 2; PyStr "c"; PyStr "d"; PyNone]]
    = Returned [mkUser (PyInt 1) (PyStr "a") (PyStr "b"); mkUser (PyInt 2) (PyStr "c") (PyStr "d")].
Proof.
  destruct (users_mappers_success
              [[PyInt 1; PyStr "a"; PyStr "b"]; [PyInt 2; PyStr "c"; PyStr "d"; PyNone]]
              [mkUser (PyInt 1) (PyStr "a") (PyStr "b"); mkUser (PyInt 2) (PyStr "c") (PyStr "d")])
    as (_ & H & _).
  apply H. split; [|reflexivity]. repeat constructor.
Defined.

(** X8. The first row that does not have three fields decides how the
    mappers fail: on a shorter row the index-based mapper raises
    [IndexError] and the destructuring mapper raises [ValueError] naming
    the number of fields it got; on a longer row the destructuring mapper
    raises [ValueError] too. *)
Theorem users_mappers_first_bad_row (pre post : list row) (r : row) :
  Forall (fun r' => length r' = 3%nat) pre ->
  ((length r < 3)%nat ->
     bad_users_from_rows (pre ++ r :: post) =
       Raised (IndexError "tuple index out of range") /\
     users_from_rows (pre ++ r :: post) =
       Raised (ValueError ("not enough values to unpack (expected 3, got "
                             +:+ pretty (length r) +:+ ")"))) /\
  ((3 < length r)%nat ->
     exists msg, users_from_rows (pre ++ r :: post) = Raised (ValueError msg)).
Proof.
  intros Hpre.
  assert (Hi : Forall (fun r' => exists y, by_index r' = Returned y) pre).
  { eapply Forall_impl; [exact Hpre |]. simpl. intros r' Hr'.
    exists (user_of_row r'). apply by_index_returned. split; [lia | done]. }
  assert (Hu : Forall (fun r' => exists y, by_unpacking r' = Returned y) pre).
  { eapply Forall_impl; [exact Hpre |]. simpl. intros r' Hr'.
    exists (user_of_row r'). apply by_unpacking_returned. by split. }
  split; [intros Hr; split |intros Hr].
  - rewrite bad_is_by_index. apply comprehension_raised; [exact Hi |].
    by apply by_index_short.
  - rewrite good_is_by_unpacking. apply comprehension_raised; [exact Hu |].
    by apply by_unpacking_short.
  - eexists. rewrite good_is_by_unpacking. apply comprehension_raised; [exact Hu |].
    by apply by_unpacking_long.
Qed.

Lemma users_mappers_first_bad_row_witness :
  users_from_rows [[PyInt 1; PyStr "a"; PyStr "b"]; [PyInt 2; PyStr "c"]; []] =
    Raised (ValueError "not enough values to unpack (expected 3, got 2)") /\
  bad_users_from_rows [[PyInt 1; PyStr "a"; PyStr "b"]; [PyInt 2; PyStr "c"]; []] =
    Raised (IndexError "tuple index out of range").
Proof.
  destruct (users_mappers_first_bad_row [[PyInt 1; PyStr "a"; PyStr "b"]] [[]]
              [PyInt 2; PyStr "c"] ltac:(repeat constructor)) as [H _].
  destruct (H ltac:(simpl; lia)) as [Hb Hg].
  split; [exact Hg | exact Hb].
Defined.

Lemma USERS_upto_rows n :
  Forall (fun r => length r = 3%nat) (USERS_upto n) /\
  map user_of_row (USERS_upto n) = map user_number (seq 0 n).
Proof.
  unfold USERS_upto. split.
  - apply Forall_forall. intros r Hr. apply list_elem_of_In, in_map_iff in Hr.
    by destruct Hr as [i [<- _]].
  - rewrite map_map. reflexivity.
Qed.

(** X9. On the module's [USERS] (and on the table built for any other
    number of rows) both mappers return; the record at position [i] has
    id [i] and the names [first_name_i] and [last_name_i]; there are as
    many records as rows, 1000 for [USERS]. *)
Theorem users_table_mapped (n : nat) :
  bad_users_from_rows (USERS_upto n) = Returned (map user_number (seq 0 n)) /\
  users_from_rows (USERS_upto n) = Returned (map user_number (seq 0 n)) /\
  (forall i, (i < n)%nat -> map user_number (seq 0 n) !! i = Some (user_number i)) /\
  bad_users_from_rows USERS = Returned (map user_number (seq 0 1000)) /\
  users_from_rows USERS = Returned (map user_number (seq 0 1000)) /\
  length (map user_number (seq 0 1000)) = 1000%nat.
Proof.
  assert (H : forall m,
    bad_users_from_rows (USERS_upto m) = Returned (map user_number (seq 0 m)) /\
    users_from_rows (USERS_upto m) = Returned (map user_number (seq 0 m))).
  { intros m. destruct (USERS_upto_rows m) as [Hlen Hmap]. split.
    - apply bad_users_from_rows_returned. split; [|by rewrite Hmap].
      eapply Forall_impl; [exact Hlen |]. simpl. intros r ->. lia.
    - apply users_from_rows_returned. split; [exact Hlen | by rewrite Hmap]. }
  split_and!; try apply H.
  - intros i Hi. change (map user_number (seq 0 n)) with (user_number <$> seq 0 n).
    rewrite list_lookup_fmap, lookup_seq_lt by done. reflexivity.
  - by rewrite length_map, length_seq.
Qed.

Lemma users_table_mapped_witness :
  map user_number (seq 0 3) !! 2%nat =
    Some (mkUser (PyInt 2) (PyStr "first_name_2") (PyStr "last_name_2")).
Proof.
  destruct (users_table_mapped 3) as (_ & _ & H & _).
  apply (H 2%nat). lia.
Defined.

End UsersRunTheorems.

Module GoodListRunTheorems.
Import GoodListM.

Lemma list_getitem_nonnegative (l : list pyval) (i : Z) (v : pyval) :
  0 <= i -> l !! Z.to_nat i = Some v -> list_getitem l i = Returned v.
Proof.
  intros Hi Hv. unfold list_getitem.
  pose proof (lookup_lt_Some _ _ _ Hv) as Hlt.
  replace (i <? 0) with false by lia.
  replace ((i <? 0) || (Z.of_nat (length l) <=? i)) with false by lia.
  by rewrite Hv.
Qed.

Lemma list_getitem_wraps (l : list pyval) (i : Z) :
  0 <= i < Z.of_nat (length l) ->
  list_getitem l (i - Z.of_nat (length l)) = list_getitem l i.
Proof.
  intros Hi. unfold list_getitem.
  replace (i - Z.of_nat (length l) <? 0) with true by lia.
  replace (i <? 0) with false by lia.
  replace (i - Z.of_nat (length l) + Z.of_nat (length l)) with i by lia.
  reflexivity.
Qed.

Lemma list_getitem_outside (l : list pyval) (i : Z) :
  i < - Z.of_nat (length l) \/ Z.of_nat (length l) <= i ->
  list_getitem l i = Raised (IndexError "list index out of range").
Proof.
  intros Hi. unfold list_getitem.
  destruct (Z.ltb_spec i 0).
  - replace ((i + Z.of_nat (length l) <? 0) || (Z.of_nat (length l) <=? i + Z.of_nat (length l)))
      with true by lia. reflexivity.
  - replace ((i <? 0) || (Z.of_nat (length l) <=? i)) with true by lia. reflexivity.
Qed.

Lemma tag_shift (i n : Z) : tag (i - n) = tag i <-> n mod 2 = 0.
Proof.
  unfold tag.
  pose proof (Z.mod_pos_bound i 2 ltac:(lia)).
  pose proof (Z.mod_pos_bound n 2 ltac:(lia)).
  pose proof (Z.mod_pos_bound (i - n) 2 ltac:(lia)).
  assert (Hsub : (i - n) mod 2 = (i mod 2 - n mod 2) mod 2) by apply Zminus_mod.
  assert (Hn : n mod 2 = 0 \/ n mod 2 = 1) by lia.
  assert (Hi : i mod 2 = 0 \/ i mod 2 = 1) by lia.
  destruct Hn as [Hn | Hn], Hi as [Hi | Hi]; rewrite Hsub, Hn, Hi; simpl;
    split; intros; try done; try lia.
Qed.

(** X10. At a position [i] of the list ([0 <= i < len]) the read returns
    the element there tagged by the parity of the position. The negative
    index [i - len] reads the same element, and is tagged the same
    exactly when the length of the list is even. *)
Theorem goodlist_position_and_alias (self : GoodList) (i : Z) :
  0 <= i < Z.of_nat (length (data self)) ->
  exists v,
    data self !! Z.to_nat i = Some v /\
    getitem self i = Returned ("[" +:+ tag i +:+ "] " +:+ py_str v) /\
    getitem self (i - Z.of_nat (length (data self))) =
      Returned ("[" +:+ tag (i - Z.of_nat (length (data self))) +:+ "] " +:+ py_str v) /\
    (getitem self (i - Z.of_nat (length (data self))) = getitem self i <->
       Z.of_nat (length (data self)) mod 2 = 0).
Proof.
  intros Hi.
  destruct (lookup_lt_is_Some_2 (data self) (Z.to_nat i)) as [v Hv]; [lia |].
  exists v.
  assert (H1 : getitem self i = Returned ("[" +:+ tag i +:+ "] " +:+ py_str v)).
  { unfold getitem. by rewrite (list_getitem_nonnegative _ i v ltac:(lia) Hv). }
  assert (H2 : getitem self (i - Z.of_nat (length (data self))) =
      Returned ("[" +:+ tag (i - Z.of_nat (length (data self))) +:+ "] " +:+ py_str v)).
  { unfold getitem.
    by rewrite list_getitem_wraps, (list_getitem_nonnegative _ i v ltac:(lia) Hv) by done. }
  split_and!; [exact Hv | exact H1 | exact H2 |].
  rewrite H1, H2, <- (tag_shift i). split.
  - intros [= H]. unfold tag in *.
    destruct ((i - Z.of_nat (length (data self))) mod 2 =? 0), (i mod 2 =? 0);
      cbv [String.append] in H; first [reflexivity | discriminate H].
  - by intros ->.
Qed.

Lemma goodlist_position_and_alias_witness :
  getitem (mkGoodList [PyStr "a"; PyStr "b"; PyStr "c"]) 2 = Returned "[even] c" /\
  getitem (mkGoodList [PyStr "a"; PyStr "b"; PyStr "c"]) (-1) = Returned "[odd] c".
Proof.
  destruct (goodlist_position_and_alias (mkGoodList [PyStr "a"; PyStr "b"; PyStr "c"]) 2
              ltac:(simpl; lia)) as (v & Hv & H1 & H2 & _).
  injection Hv as <-. split; [exact H1 | exact H2].
Defined.

(** X11. For an index that fits an index-sized integer
    ([-2^63 <= i < 2^63]): outside [-len .. len-1] the read raises
    [IndexError] "list index out of range" and gives no tagged value; on
    the empty list every such index does. Every index inside that range
    gives a tagged value. *)
Theorem goodlist_index_out_of_range (self : GoodList) (i : Z) :
  - 2 ^ 63 <= i < 2 ^ 63 ->
  (i < - Z.of_nat (length (data self)) \/ Z.of_nat (length (data self)) <= i ->
     getitem self i = Raised (IndexError "list index out of range")) /\
  (data self = [] -> getitem self i = Raised (IndexError "list index out of range")) /\
  ((exists s, getitem self i = Returned s) <->
     - Z.of_nat (length (data self)) <= i < Z.of_nat (length (data self))).
Proof.
  intros _.
  assert (Hout : i < - Z.of_nat (length (data self)) \/ Z.of_nat (length (data self)) <= i ->
     getitem self i = Raised (IndexError "list index out of range")).
  { intros Hi. unfold getitem. by rewrite list_getitem_outside. }
  split_and!.
  - exact Hout.
  - intros Hnil. apply Hout. rewrite Hnil. simpl. lia.
  - split.
    + intros [s Hs].
      destruct (Z.lt_ge_cases i (- Z.of_nat (length (data self)))) as [Hlo | Hlo];
        [rewrite Hout in Hs by lia; discriminate |].
      destruct (Z.lt_ge_cases i (Z.of_nat (length (data self)))) as [Hhi | Hhi];
        [lia | rewrite Hout in Hs by lia; discriminate].
    + intros Hi. unfold getitem.
      set (j := if i <? 0 then i + Z.of_nat (length (data self)) else i).
      assert (Hj : 0 <= j < Z.of_nat (length (data self))).
      { unfold j. destruct (Z.ltb_spec i 0); lia. }
      destruct (lookup_lt_is_Some_2 (data self) (Z.to_nat j)) as [v Hv]; [lia |].
      assert (Hget : list_getitem (data self) i = Returned v).
      { destruct (Z.ltb_spec i 0) as [Hneg | Hpos].
        - replace i with (j - Z.of_nat (length (data self))) by (unfold j; lia).
          rewrite list_getitem_wraps by done.
          by apply list_getitem_nonnegative; [lia |].
        - unfold j in Hv. by apply list_getitem_nonnegative. }
      rewrite Hget. simpl. eauto.
Qed.

Lemma goodlist_index_out_of_range_witness :
  getitem (mkGoodList [PyStr "a"; PyStr "b"; PyStr "c"]) 3 =
    Raised (IndexError "list index out of range") /\
  getitem (mkGoodList [PyStr "a"; PyStr "b"; PyStr "c"]) (-4) =
    Raised (IndexError "list index out of range") /\
  getitem (mkGoodList []) 0 = Raised (IndexError "list index out of range").
Proof.
  split_and!.
  - destruct (goodlist_index_out_of_range (mkGoodList [PyStr "a"; PyStr "b"; PyStr "c"]) 3
                ltac:(lia)) as (H & _).
    apply H. right. simpl. lia.
  - destruct (goodlist_index_out_of_range (mkGoodList [PyStr "a"; PyStr "b"; PyStr "c"]) (-4)
                ltac:(lia)) as (H & _).
    apply H. left. simpl. lia.
  - destruct (goodlist_index_out_of_range (mkGoodList []) 0 ltac:(lia)) as (_ & H & _).
    apply H. reflexivity.
Defined.

End GoodListRunTheorems.

Module MroRunTheorems.
Import MroM.

(** X12. For every name, rendering an instance shows the [module_name]
    of the first class of its linearization that sets one, then the
    name: [top] for [BaseModule], each base's own tag, the first-listed
    base's tag for the two combined classes. The single-base classes
    linearize to the chain up to [object]. *)
Theorem mro_rendering_every_class (name : string) :
  (construct "BaseModule" name ≫= str) = Some ("top:" +:+ name) /\
  (construct "BaseModule1" name ≫= str) = Some ("module-1:" +:+ name) /\
  (construct "BaseModule2" name ≫= str) = Some ("module-2:" +:+ name) /\
  (construct "BaseModule3" name ≫= str) = Some ("module-3:" +:+ name) /\
  (construct "ConcreteModuleA12" name ≫= str) = Some ("module-1:" +:+ name) /\
  (construct "ConcreteModuleB23" name ≫= str) = Some ("module-2:" +:+ name) /\
  mro "BaseModule" = Some ["BaseModule"; "object"] /\
  mro "BaseModule1" = Some ["BaseModule1"; "BaseModule"; "object"] /\
  mro "BaseModule2" = Some ["BaseModule2"; "BaseModule"; "object"] /\
  mro "BaseModule3" = Some ["BaseModule3"; "BaseModule"; "object"].
Proof. split_and!; vm_compute; reflexivity. Qed.

End MroRunTheorems.

Module BagRunTheorems.
Import BagM BagRun.



Lemma split_point_count {A} (P : A -> Prop) `{forall v, Decision (P v)} (a : list A) :
  forall r : nat,
  (r <= length a)%nat ->
  (forall i v, (i < r)%nat -> a !! i = Some v -> P v) ->
  (forall i v, (r <= i)%nat -> a !! i = Some v -> ~ P v) ->
  length (filter P a) = r.
Proof.
  induction a as [|v a IH]; intros r Hr Hlt Hge; simpl in *.
  - lia.
  - rewrite filter_cons. destruct r as [|r].
    + rewrite decide_False by (apply (Hge 0%nat); [lia | done]).
      apply IH; [lia | intros; lia |].
      intros i w _ Hw. apply (Hge (S i)); [lia | done].
    + rewrite decide_True by (apply (Hlt 0%nat); [lia | done]).
      simpl. f_equal. apply IH; [lia | |].
      * intros i w Hi Hw. apply (Hlt (S i)); [lia | done].
      * intros i w Hi Hw. apply (Hge (S i)); [lia | done].
Qed.

(** X14. For comparable elements, the insertion point that [bisect_left]
    finds in the bag's sorted list is the number of elements of the
    input that are smaller than [x]. *)
Theorem bag_insertion_point_counts_smaller {A} (ltb : A -> A -> bool)
    (input : list A) (x : A) :
  (forall x, ltb x x = false) ->
  (forall x y z, ltb x y = true -> ltb y z = true -> ltb x z = true) ->
  (forall x y z, ltb x z = true -> ltb x y = true \/ ltb y z = true) ->
  bisect_left ltb (sorted ltb input) x = Some (smaller_count ltb x input).
Proof.
  intros Hirr Htrans Hneg.
  destruct (BagTheorems.bisect_left_spec ltb Hirr Hneg (sorted ltb input) x
              (BagTheorems.sorted_sorted ltb Hirr Htrans Hneg input))
    as (r & Hr & Hb & H1 & H2).
  rewrite Hr. f_equal. unfold smaller_count.
  rewrite <- (Permutation_length
                (filter_Permutation (fun e => ltb e x = true) _ _
                   (BagTheorems.sorted_perm ltb input))).
  symmetry. apply split_point_count; [exact Hb | exact H1 |].
  intros i v Hi Hv. rewrite (H2 i v Hi Hv). discriminate.
Qed.

Lemma bag_insertion_point_counts_smaller_witness :
  bisect_left Z.ltb (sorted Z.ltb [3; 1; 2; 5; 4; 1]) 3 = Some 3%nat.
Proof.
  apply (bag_insertion_point_counts_smaller Z.ltb [3; 1; 2; 5; 4; 1] 3
           ltac:(intros; lia) ltac:(intros; lia) ltac:(intros; lia)).
Defined.

Lemma sorted_of_sorted {A} (ltb : A -> A -> bool) (l : list A) :
  StronglySorted (not_after ltb) l -> sorted ltb l = l.
Proof.
  induction 1 as [|y l Hs IH Hy]; [reflexivity |].
  simpl. fold (sorted ltb l). rewrite IH.
  destruct l as [|z l']; [reflexivity |]. simpl.
  apply Forall_cons in Hy as [Hyz _]. unfold not_after in Hyz. by rewrite Hyz.
Qed.

(** X15. An input that is already in order is stored as it is, and for
    comparable elements sorting the sorted list again changes nothing;
    the sorted list always has as many elements as the input, duplicates
    included. *)
Theorem bag_sorted_is_stable_under_resorting {A} (ltb : A -> A -> bool) (input : list A) :
  (StronglySorted (fun a b => ltb b a = false) input -> init ltb input = mkBag input) /\
  length (_sorted_list (init ltb input)) = length input /\
  ((forall x, ltb x x = false) ->
   (forall x y z, ltb x y = true -> ltb y z = true -> ltb x z = true) ->
   (forall x y z, ltb x z = true -> ltb x y = true \/ ltb y z = true) ->
   init ltb (_sorted_list (init ltb input)) = init ltb input).
Proof.
  split_and!.
  - intros Hs. unfold init. f_equal. by apply sorted_of_sorted.
  - simpl. apply Permutation_length, BagTheorems.sorted_perm.
  - intros Hirr Htrans Hneg. unfold init. simpl. f_equal.
    apply sorted_of_sorted. by apply BagTheorems.sorted_sorted.
Qed.

Lemma bag_sorted_is_stable_under_resorting_witness :
  init Z.ltb [1; 1; 2; 3; 4; 5] = mkBag [1; 1; 2; 3; 4; 5] /\
  init Z.ltb (_sorted_list (init Z.ltb [3; 1; 2; 5; 4; 1])) = init Z.ltb [3; 1; 2; 5; 4; 1].
Proof.
  split.
  - destruct (bag_sorted_is_stable_under_resorting Z.ltb [1; 1; 2; 3; 4; 5]) as (H & _).
    apply H. repeat (constructor; try reflexivity).
  - destruct (bag_sorted_is_stable_under_resorting Z.ltb [3; 1; 2; 5; 4; 1]) as (_ & _ & H).
    apply H; intros; lia.
Defined.

End BagRunTheorems.

Module StringFacts.
Import ArnM ArnShape.

Lemma app_cons (c : ascii) (s t : string) : String c s +:+ t = String c (s +:+ t).
Proof. reflexivity. Qed.

Lemma app_nil_l (s : string) : "" +:+ s = s.
Proof. reflexivity. Qed.

Lemma app_nil_r (s : string) : s +:+ "" = s.
Proof. induction s as [|c s IH]; [reflexivity |]. by rewrite app_cons, IH. Qed.

Lemma length_app (s t : string) :
  String.length (s +:+ t) = (String.length s + String.length t)%nat.
Proof. induction s as [|c s IH]; [reflexivity |]. rewrite app_cons. simpl. by rewrite IH. Qed.

Lemma substring_prefix (p s : string) : substring 0 (String.length p) (p +:+ s) = p.
Proof.
  induction p as [|c p IH].
  - change ("" +:+ s) with s. by destruct s.
  - rewrite app_cons. simpl. by rewrite IH.
Qed.

Lemma strip_prefix_spec (p s s' : string) :
  strip_prefix p s = Some s' <-> s = p +:+ s'.
Proof.
  revert s. induction p as [|a p IH]; intros s; simpl.
  - split; [by intros [= ->] | by intros ->].
  - destruct s as [|b s]; [split; discriminate |].
    rewrite app_cons. destruct (Ascii.eqb_spec a b) as [-> | Hne].
    + rewrite IH. split; [by intros -> | by intros [= ->]].
    + split; [discriminate | intros [= H _]; congruence].
Qed.

Lemma all_chars_app f (s t : string) :
  all_chars f (s +:+ t) = all_chars f s && all_chars f t.
Proof.
  induction s as [|c s IH]; [reflexivity |].
  rewrite app_cons. simpl. by rewrite IH, andb_assoc.
Qed.

Lemma all_chars_impl (f g : ascii -> bool) (s : string) :
  (forall c, f c = true -> g c = true) -> all_chars f s = true -> all_chars g s = true.
Proof.
  intros Hfg. induction s as [|c s IH]; [done |]. simpl.
  intros [Hc Hs]%andb_true_iff. by rewrite (Hfg c Hc), IH.
Qed.

(** A field that does not contain its separator is determined by the
    text that starts with it. *)
Lemma field_unique (sep : ascii) (p p' r r' : string) :
  all_chars (fun c => negb (Ascii.eqb c sep)) p = true ->
  all_chars (fun c => negb (Ascii.eqb c sep)) p' = true ->
  p +:+ String sep r = p' +:+ String sep r' ->
  p = p' /\ r = r'.
Proof.
  revert p'. induction p as [|c p IH]; intros p' Hp Hp' Heq.
  - destruct p' as [|c' p'].
    + injection Heq as ->. done.
    + rewrite app_cons in Heq. injection Heq as <- _. simpl in Hp'.
      rewrite Ascii.eqb_refl in Hp'. discriminate.
  - destruct p' as [|c' p'].
    + rewrite app_cons in Heq. injection Heq as -> _. simpl in Hp.
      rewrite Ascii.eqb_refl in Hp. discriminate.
    + rewrite !app_cons in Heq. injection Heq as <- Heq.
      simpl in Hp, Hp'. apply andb_true_iff in Hp as [_ Hp], Hp' as [_ Hp'].
      destruct (IH p' Hp Hp' Heq) as [-> ->]. done.
Qed.

Lemma prefix_unique (p p' r r' : string) :
  String.length p = String.length p' ->
  p +:+ r = p' +:+ r' -> p = p' /\ r = r'.
Proof.
  revert p'. induction p as [|c p IH]; intros [|c' p'] Hlen Heq; try discriminate.
  - done.
  - rewrite !app_cons in Heq. injection Heq as <- Heq. injection Hlen as Hlen.
    destruct (IH p' Hlen Heq) as [-> ->]. done.
Qed.

Lemma word_hyphen_not_colon (c : ascii) :
  word_hyphen c = true -> negb (Ascii.eqb c ":") = true.
Proof.
  destruct (Ascii.eqb_spec c ":") as [-> | _]; [discriminate | done].
Qed.

Lemma digit_not_newline (c : ascii) : is_digit c = true -> not_newline c = true.
Proof.
  unfold not_newline. simpl.
  destruct (Ascii.eqb_spec c newline) as [-> | _]; [discriminate | done].
Qed.

Lemma repeat_matches_elem (cs : cset) (s : string) :
  forall (lo : nat) (hi : option nat) (taken n : nat) (s' : string),
  (n, s') ∈ repeat_matches cs lo hi s taken <->
  exists p, s = p +:+ s' /\ n = (taken + String.length p)%nat /\
            all_chars (cset_matches cs) p = true /\
            (lo <= String.length p)%nat /\ hi_ok hi (String.length p).
Proof.
  induction s as [|c s IH]; intros lo hi taken n s'.
  - simpl. split.
    + destruct (Nat.eqb_spec lo 0) as [-> |]; [|by intros ?%elem_of_nil].
      intros [= -> ->]%list_elem_of_singleton. exists "".
      split_and!; try done; try (simpl; lia); destruct hi; simpl; try done; lia.
    + intros (p & Hs & -> & _ & Hlo & _).
      destruct p; [rewrite app_nil_l in Hs | rewrite app_cons in Hs; discriminate].
      simpl in *. subst s'.
      replace lo with 0%nat by lia. simpl. rewrite Nat.add_0_r. by left.
  - cbn [repeat_matches].
    assert (Hstop : (n, s') ∈ (if Nat.eqb lo 0 then [(taken, String c s)] else []) <->
                    lo = 0%nat /\ n = taken /\ s' = String c s).
    { destruct (Nat.eqb_spec lo 0) as [-> | Hne].
      - rewrite list_elem_of_singleton. split; [by intros [= -> ->] | by intros (_ & -> & ->)].
      - rewrite elem_of_nil. split; [done | by intros (? & _)]. }
    split.
    + intros Hin.
      assert (Hcases : (cset_matches cs c && hi_allows hi = true /\
                        (n, s') ∈ repeat_matches cs (Nat.pred lo) (dec_hi hi) s (S taken)) \/
                       (n, s') ∈ (if Nat.eqb lo 0 then [(taken, String c s)] else [])).
      { destruct (cset_matches cs c && hi_allows hi); [|by right].
        apply elem_of_app in Hin as [Hin | Hin]; [left | right]; done. }
      destruct Hcases as [[Hc Hin'] | Hin'].
      * apply IH in Hin' as (p & -> & -> & Hall & Hlo & Hhi).
        apply andb_true_iff in Hc as [Hc Hallow].
        exists (String c p). rewrite app_cons. simpl. rewrite Hc, Hall.
        split_and!; try done; try lia.
        destruct hi as [[|h]|]; simpl in *; try done; lia.
      * apply Hstop in Hin' as (-> & -> & ->). exists "".
        split_and!; try done; try (simpl; lia); destruct hi; simpl; try done; lia.
    + intros (p & Hs & -> & Hall & Hlo & Hhi).
      destruct p as [|c' p].
      * rewrite app_nil_l in Hs. simpl in Hlo. subst s'.
        assert (Hin : (taken + String.length "", String c s)%nat ∈
                      (if Nat.eqb lo 0 then [(taken, String c s)] else [])).
        { apply Hstop. simpl. split_and!; [lia | lia | done]. }
        destruct (cset_matches cs c && hi_allows hi); [|exact Hin].
        apply elem_of_app. by right.
      * rewrite app_cons in Hs. injection Hs as <- ->.
        simpl in Hall. apply andb_true_iff in Hall as [Hc Hall].
        assert (Hallow : hi_allows hi = true).
        { destruct hi as [[|h]|]; simpl in *; try done; lia. }
        rewrite Hc, Hallow. simpl. apply elem_of_app. left.
        apply IH. exists p. simpl in Hlo.
        split_and!; try done; try (simpl; lia).
        destruct hi as [[|h]|]; simpl in *; try done; lia.
Qed.

End StringFacts.

Module ArnShapeTheorems.
Import ArnM ArnShape StringFacts.

Lemma mstate_eq (st st' : mstate) :
  consumed st = consumed st' -> rest st = rest st' -> groups st = groups st' -> st = st'.
Proof. destruct st, st'; simpl; intros -> -> ->; reflexivity. Qed.

Lemma matches_text_elem (p : string) (st st' : mstate) :
  st' ∈ matches (RText p) st <->
  rest st = p +:+ rest st' /\
  consumed st' = (consumed st + String.length p)%nat /\ groups st' = groups st.
Proof.
  cbn [matches]. split.
  - destruct (strip_prefix p (rest st)) as [s'|] eqn:E; [|by intros ?%elem_of_nil].
    intros ->%list_elem_of_singleton. simpl. by apply strip_prefix_spec in E.
  - intros (Hr & Hc & Hg). apply strip_prefix_spec in Hr. rewrite Hr.
    apply list_elem_of_singleton. by apply mstate_eq.
Qed.

Lemma matches_repeat_elem (cs : cset) (lo : nat) (hi : option nat) (st st' : mstate) :
  st' ∈ matches (RRepeat cs lo hi) st <->
  exists p, rest st = p +:+ rest st' /\
            consumed st' = (consumed st + String.length p)%nat /\
            groups st' = groups st /\
            all_chars (cset_matches cs) p = true /\
            (lo <= String.length p)%nat /\ hi_ok hi (String.length p).
Proof.
  cbn [matches]. rewrite list_elem_of_fmap. split.
  - intros ([n s'] & -> & Hin). apply repeat_matches_elem in Hin
      as (p & Hs & -> & Hall & Hlo & Hhi).
    exists p. simpl. split_and!; try done.
  - intros (p & Hr & Hc & Hg & Hall & Hlo & Hhi).
    exists (String.length p, rest st'). split.
    + apply mstate_eq; simpl; done.
    + apply repeat_matches_elem. exists p. split_and!; try done.
Qed.

Lemma matches_begin_elem (st st' : mstate) :
  st' ∈ matches RBegin st <-> consumed st = 0%nat /\ st' = st.
Proof.
  cbn [matches]. destruct (Nat.eqb_spec (consumed st) 0) as [E | E].
  - rewrite list_elem_of_singleton. naive_solver.
  - rewrite elem_of_nil. naive_solver.
Qed.

Lemma matches_end_elem (st st' : mstate) :
  st' ∈ matches REnd st <-> at_end (rest st) = true /\ st' = st.
Proof.
  cbn [matches]. destruct (at_end (rest st)).
  - rewrite list_elem_of_singleton. naive_solver.
  - rewrite elem_of_nil. naive_solver.
Qed.

Lemma matches_group_elem (name : string) (r : regex) (st st' : mstate) :
  st' ∈ matches (RGroup name r) st <->
  exists st1, st1 ∈ matches r st /\
    st' = mkState (consumed st1) (rest st1)
            ((name, substring 0 (consumed st1 - consumed st) (rest st)) :: groups st1).
Proof.
  cbn [matches]. rewrite list_elem_of_fmap. naive_solver.
Qed.

Lemma fields_ok_spec service region account_id resource tail :
  arn_fields_ok service region account_id resource tail = true <->
  service <> "" /\ all_chars word_hyphen service = true /\
  all_chars word_hyphen region = true /\
  String.length account_id = 12%nat /\ all_chars is_digit account_id = true /\
  resource <> "" /\ all_chars not_newline resource = true /\
  at_end tail = true.
Proof.
  unfold arn_fields_ok. rewrite !andb_true_iff, !negb_true_iff, !String.eqb_neq, Nat.eqb_eq.
  tauto.
Qed.

Lemma nonempty_length (s : string) : s <> "" <-> (1 <= String.length s)%nat.
Proof. destruct s; simpl; split; try done; try lia. Qed.

(** Every way the pattern matches a subject reads it as the five fields. *)
Lemma arn_matches_sound (a : string) (st' : mstate) :
  st' ∈ matches ARN_REGEX (mkState 0 a []) ->
  exists service region account_id resource,
    a = arn_text service region account_id resource (rest st') /\
    arn_fields_ok service region account_id resource (rest st') = true /\
    groups st' = [("account_id", account_id)].
Proof.
  unfold ARN_REGEX. intros Hin.
  apply ArnTheorems.matches_cat in Hin as (s1 & [_ ->]%matches_begin_elem & Hin).
  apply ArnTheorems.matches_cat in Hin as (s2 & (R2 & C2 & G2)%matches_text_elem & Hin).
  apply ArnTheorems.matches_cat in Hin
    as (s3 & (svc & R3 & C3 & G3 & A3 & L3 & _)%matches_repeat_elem & Hin).
  apply ArnTheorems.matches_cat in Hin as (s4 & (R4 & C4 & G4)%matches_text_elem & Hin).
  apply ArnTheorems.matches_cat in Hin
    as (s5 & (reg & R5 & C5 & G5 & A5 & _ & _)%matches_repeat_elem & Hin).
  apply ArnTheorems.matches_cat in Hin as (s6 & (R6 & C6 & G6)%matches_text_elem & Hin).
  apply ArnTheorems.matches_cat in Hin as (s7 & (s0 & H0 & ->)%matches_group_elem & Hin).
  apply matches_repeat_elem in H0 as (id & R0 & C0 & G0 & A0 & L0 & U0).
  apply ArnTheorems.matches_cat in Hin as (s8 & (R8 & C8 & G8)%matches_text_elem & Hin).
  apply ArnTheorems.matches_cat in Hin
    as (s9 & (res & R9 & C9 & G9 & A9 & L9 & _)%matches_repeat_elem
        & [E9 ->]%matches_end_elem).
  simpl in *.
  exists svc, reg, id, res. split_and!.
  - unfold arn_text. rewrite R2, R3, R4, R5, R6, R0, R8, R9. reflexivity.
  - apply fields_ok_spec. split_and!; try done.
    + apply nonempty_length. lia.
    + lia.
    + apply nonempty_length. lia.
  - rewrite G9, G8. f_equal. f_equal.
    + rewrite C0, R0. replace (consumed s6 + String.length id - consumed s6)%nat
        with (String.length id) by lia. apply substring_prefix.
    + by rewrite G0, G6, G5, G4, G3, G2.
Qed.

(** A subject made of five fields that satisfy the conditions is matched. *)
Lemma arn_matches_complete (service region account_id resource tail : string) :
  arn_fields_ok service region account_id resource tail = true ->
  exists st', st' ∈ matches ARN_REGEX
                (mkState 0 (arn_text service region account_id resource tail) []).
Proof.
  intros (Hs & As & Ar & Li & Ai & Hr & Ar' & Et)%fields_ok_spec.
  apply nonempty_length in Hs, Hr.
  unfold ARN_REGEX, arn_text.
  eexists (mkState _ tail _).
  apply ArnTheorems.matches_cat. eexists. split; [by apply matches_begin_elem |].
  apply ArnTheorems.matches_cat. eexists (mkState _ _ _). split.
  { apply matches_text_elem. simpl. split_and!; reflexivity. }
  apply ArnTheorems.matches_cat. eexists (mkState _ _ _). split.
  { apply matches_repeat_elem. exists service. simpl. split_and!; try reflexivity; done. }
  apply ArnTheorems.matches_cat. eexists (mkState _ _ _). split.
  { apply matches_text_elem. simpl. split_and!; reflexivity. }
  apply ArnTheorems.matches_cat. eexists (mkState _ _ _). split.
  { apply matches_repeat_elem. exists region. simpl.
    split_and!; try reflexivity; try done. lia. }
  apply ArnTheorems.matches_cat. eexists (mkState _ _ _). split.
  { apply matches_text_elem. simpl. split_and!; reflexivity. }
  apply ArnTheorems.matches_cat. eexists. split.
  { apply matches_group_elem. eexists (mkState _ _ _). split; [|reflexivity].
    apply matches_repeat_elem. exists account_id. simpl.
    split_and!; try reflexivity; try done; lia. }
  apply ArnTheorems.matches_cat. eexists (mkState _ _ _). split.
  { apply matches_text_elem. simpl. split_and!; reflexivity. }
  apply ArnTheorems.matches_cat. eexists (mkState _ _ _). split.
  { apply matches_repeat_elem. exists resource. simpl.
    split_and!; try reflexivity; done. }
  apply matches_end_elem. simpl. split; [exact Et | reflexivity].
Qed.

(** A text has at most one reading as the five fields: the account id
    is determined. *)
Lemma arn_fields_unique (s1 r1 i1 x1 t1 s2 r2 i2 x2 t2 : string) :
  arn_fields_ok s1 r1 i1 x1 t1 = true ->
  arn_fields_ok s2 r2 i2 x2 t2 = true ->
  arn_text s1 r1 i1 x1 t1 = arn_text s2 r2 i2 x2 t2 ->
  s1 = s2 /\ r1 = r2 /\ i1 = i2.
Proof.
  intros (_ & As1 & Ar1 & L1 & _)%fields_ok_spec (_ & As2 & Ar2 & L2 & _)%fields_ok_spec.
  unfold arn_text. intros H%(inj (String.app "arn:aws:")).
  apply (all_chars_impl _ _ _ word_hyphen_not_colon) in As1, As2, Ar1, Ar2.
  apply (field_unique ":" s1 s2) in H as [-> H]; [|done..].
  apply (field_unique ":" r1 r2) in H as [-> H]; [|done..].
  apply prefix_unique in H as [-> _]; [done | congruence].
Qed.

Lemma groupdict_get_single (x : string) :
  groupdict_get "account_id" [("account_id", x)] = Some x.
Proof. reflexivity. Qed.

Lemma account_id_of_shape (a x : string) :
  account_id_of a = Some x <->
  exists service region resource tail,
    a = arn_text service region x resource tail /\
    arn_fields_ok service region x resource tail = true.
Proof.
  unfold account_id_of, re_match. split.
  - destruct (matches ARN_REGEX (mkState 0 a [])) as [|st' l] eqn:E; [discriminate |].
    simpl. intros Hx.
    assert (Hin : st' ∈ matches ARN_REGEX (mkState 0 a [])) by (rewrite E; left).
    apply arn_matches_sound in Hin as (svc & reg & id & res & Ha & Hok & Hg).
    rewrite Hg, groupdict_get_single in Hx. injection Hx as <-. eauto 10.
  - intros (svc & reg & res & tail & -> & Hok).
    destruct (arn_matches_complete _ _ _ _ _ Hok) as [st1 H1].
    destruct (matches ARN_REGEX _) as [|st' l] eqn:E; [by apply elem_of_nil in H1 |].
    simpl.
    assert (Hin : st' ∈ matches ARN_REGEX
                    (mkState 0 (arn_text svc reg x res tail) [])) by (rewrite E; left).
    apply arn_matches_sound in Hin as (svc' & reg' & id' & res' & Ha & Hok' & Hg).
    rewrite Hg, groupdict_get_single.
    destruct (arn_fields_unique _ _ _ _ _ _ _ _ _ _ Hok Hok' Ha) as (_ & _ & <-).
    reflexivity.
Qed.

End ArnShapeTheorems.

Module PrettyFacts.
Import ArnM ArnShape StringFacts.

Lemma pretty_N_char_digit (x : N) : is_digit (pretty_N_char x) = true.
Proof. unfold pretty_N_char. repeat case_match; reflexivity. Qed.

Lemma pretty_N_go_digits (x : N) : forall s : string,
  all_chars is_digit s = true -> all_chars is_digit (pretty_N_go x s) = true.
Proof.
  induction (N.lt_wf_0 x) as [x _ IH]. intros s Hs.
  destruct (N.eq_dec x 0%N) as [-> | Hx]; [by rewrite pretty_N_go_0 |].
  rewrite pretty_N_go_step by lia.
  apply IH; [apply N.div_lt; lia |].
  simpl. by rewrite pretty_N_char_digit, Hs.
Qed.

Lemma pretty_N_go_length (k : nat) : forall (x : N) (s : string),
  (10 ^ N.of_nat k <= x < 10 ^ N.of_nat (S k))%N ->
  String.length (pretty_N_go x s) = (S k + String.length s)%nat.
Proof.
  induction k as [|k IH]; intros x s Hx.
  - change (10 ^ N.of_nat 0)%N with 1%N in Hx. change (10 ^ N.of_nat 1)%N with 10%N in Hx.
    rewrite pretty_N_go_step by lia.
    rewrite (N.div_small x 10%N) by lia. by rewrite pretty_N_go_0.
  - rewrite pretty_N_go_step by lia.
    rewrite (IH (x `div` 10)%N).
    + simpl. lia.
    + rewrite !Nat2N.inj_succ, !N.pow_succ_r' in Hx. rewrite Nat2N.inj_succ, N.pow_succ_r'.
      split.
      * apply N.div_le_lower_bound; lia.
      * apply N.Div0.div_lt_upper_bound; lia.
Qed.

Lemma pretty_N_go_length_ge (k : nat) : forall (x : N) (s : string),
  (10 ^ N.of_nat k <= x)%N ->
  (S k + String.length s <= String.length (pretty_N_go x s))%nat.
Proof.
  induction k as [|k IH]; intros x s Hx.
  - change (10 ^ N.of_nat 0)%N with 1%N in Hx.
    rewrite pretty_N_go_step by lia.
    assert (Hmono : forall y t, (String.length t <= String.length (pretty_N_go y t))%nat).
    { intros y. induction (N.lt_wf_0 y) as [y _ IHy]. intros t.
      destruct (N.eq_dec y 0%N) as [-> | Hy]; [by rewrite pretty_N_go_0 |].
      rewrite pretty_N_go_step by lia.
      etrans; [|apply IHy; apply N.div_lt; lia]. simpl. lia. }
    etrans; [|apply Hmono]. simpl. lia.
  - assert (0 < 10 ^ N.of_nat (S k))%N by (apply N.neq_0_lt_0, N.pow_nonzero; lia).
    rewrite pretty_N_go_step by lia.
    etrans; [|apply IH].
    + simpl. lia.
    + rewrite Nat2N.inj_succ, N.pow_succ_r' in Hx.
      apply N.div_le_lower_bound; lia.
Qed.

Lemma pretty_Z_positive (z : Z) : 0 < z -> pretty z = pretty_N_go (Z.to_N z) "".
Proof. destruct z as [|p|p]; try lia. intros _. reflexivity. Qed.

Lemma pretty_Z_nonneg_digits (z : Z) : 0 <= z -> all_chars is_digit (pretty z) = true.
Proof.
  intros Hz. destruct (Z.eq_dec z 0) as [-> | Hne]; [reflexivity |].
  rewrite pretty_Z_positive by lia. by apply pretty_N_go_digits.
Qed.

(** The account ids the generator makes have twelve digits as long as
    [100000000000 + i] has. *)
Lemma twelve_digits (z : Z) :
  100000000000 <= z < 1000000000000 ->
  String.length (pretty z) = 12%nat /\ all_chars is_digit (pretty z) = true.
Proof.
  intros Hz. split; [|apply pretty_Z_nonneg_digits; lia].
  rewrite pretty_Z_positive by lia.
  rewrite (pretty_N_go_length 11); [reflexivity |].
  change (10 ^ N.of_nat 11)%N with 100000000000%N.
  change (10 ^ N.of_nat 12)%N with 1000000000000%N. lia.
Qed.

Lemma more_than_twelve_digits (z : Z) :
  1000000000000 <= z ->
  (13 <= String.length (pretty z))%nat /\ all_chars is_digit (pretty z) = true.
Proof.
  intros Hz. split; [|apply pretty_Z_nonneg_digits; lia].
  rewrite pretty_Z_positive by lia.
  pose proof (pretty_N_go_length_ge 12 (Z.to_N z) "") as H. simpl in H. apply H.
  change (10 ^ N.of_nat 12)%N with 1000000000000%N. lia.
Qed.

End PrettyFacts.

Module ArnRunTheorems.
Import ArnM ArnShape StringFacts ArnShapeTheorems PrettyFacts.

Lemma lazy_is_omap (arns : list string) :
  collect_account_ids_from_arns_1 arns = omap account_id_of arns.
Proof. reflexivity. Qed.

Lemma generate_is_map service region resource_type resource_prefix count :
  generate_fake_arns service region resource_type resource_prefix count =
    (fun n : nat => fake_arn service region resource_type resource_prefix (Z.of_nat n))
      <$> seq 0 count.
Proof.
  unfold generate_fake_arns, fake_arn. induction (seq 0 count) as [|n l IH]; [done |].
  simpl. by rewrite IH.
Qed.

Lemma omap_all_some {A B} (f : A -> option B) (g : A -> B) (l : list A) :
  (forall x, x ∈ l -> f x = Some (g x)) -> omap f l = g <$> l.
Proof.
  induction l as [|x l IH]; intros H; [done |]. simpl.
  rewrite (H x) by left. simpl. f_equal. apply IH. intros y Hy. apply H. by right.
Qed.

Lemma omap_of_fmap {A B C} (f : B -> option C) (g : A -> B) (l : list A) :
  omap f (g <$> l) = omap (fun x => f (g x)) l.
Proof.
  induction l as [|x l IH]; [done |].
  change (omap f (g <$> x :: l))
    with (match f (g x) with Some y => y :: omap f (g <$> l) | None => omap f (g <$> l) end).
  change (omap (fun x => f (g x)) (x :: l))
    with (match f (g x) with
          | Some y => y :: omap (fun x => f (g x)) l
          | None => omap (fun x => f (g x)) l
          end).
  by rewrite IH.
Qed.

Lemma length_omap_le {A B} (f : A -> option B) (l : list A) :
  (length (omap f l) <= length l)%nat.
Proof.
  induction l as [|x l IH]; [simpl; lia |].
  change (omap f (x :: l))
    with (match f x with Some y => y :: omap f l | None => omap f l end).
  destruct (f x); simpl; lia.
Qed.

Lemma length_remove_dups_le (l : list string) : (length (remove_dups l) <= length l)%nat.
Proof. induction l as [|x l IH]; simpl; [lia |]. case_decide; simpl; lia. Qed.

Lemma size_list_to_set_le (l : list string) :
  (size (list_to_set l : gset string) <= length l)%nat.
Proof.
  assert (H : (list_to_set l : gset string) = list_to_set (remove_dups l)).
  { apply set_eq. intros x. by rewrite !elem_of_list_to_set, elem_of_remove_dups. }
  rewrite H, size_list_to_set by apply NoDup_remove_dups.
  apply length_remove_dups_le.
Qed.

Lemma fake_arn_matched service region resource_type resource_prefix (i : Z) :
  service <> "" ->
  all_chars word_hyphen service = true ->
  all_chars word_hyphen region = true ->
  all_chars not_newline resource_type = true ->
  all_chars not_newline resource_prefix = true ->
  0 <= i < 900000000000 ->
  account_id_of (fake_arn service region resource_type resource_prefix i) =
    Some (pretty (100000000000 + i)).
Proof.
  intros Hs As Ar At Ap Hi. apply account_id_of_shape.
  exists service, region,
    (resource_type +:+ "/" +:+ resource_prefix +:+ "-" +:+ pretty i), "".
  split.
  - unfold fake_arn, arn_text. by rewrite app_nil_r.
  - destruct (twelve_digits (100000000000 + i) ltac:(lia)) as [Hlen Hdig].
    apply fields_ok_spec. split_and!; try done.
    + apply nonempty_length. rewrite !length_app. simpl. lia.
    + rewrite !all_chars_app, At, Ap. simpl.
      apply (all_chars_impl _ _ _ digit_not_newline), pretty_Z_nonneg_digits. lia.
Qed.

Lemma digits_then_colon (x : string) : forall d r r' : string,
  all_chars is_digit d = true ->
  (String.length x < String.length d)%nat ->
  x +:+ String ":" r = d +:+ r' -> False.
Proof.
  induction x as [|c x IH]; intros [|c' d] r r' Hd Hlen Heq; simpl in Hlen; try lia.
  - rewrite app_nil_l, app_cons in Heq. injection Heq as <- _.
    simpl in Hd. discriminate.
  - rewrite !app_cons in Heq. injection Heq as <- Heq.
    simpl in Hd. apply andb_true_iff in Hd as [_ Hd].
    apply (IH d r r' Hd); [lia | exact Heq].
Qed.

Lemma fake_arn_unmatched service region resource_type resource_prefix (i : Z) :
  all_chars word_hyphen service = true ->
  all_chars word_hyphen region = true ->
  900000000000 <= i ->
  account_id_of (fake_arn service region resource_type resource_prefix i) = None.
Proof.
  intros As Ar Hi.
  destruct (account_id_of _) as [x|] eqn:E; [exfalso | reflexivity].
  apply account_id_of_shape in E as (svc & reg & res & tail & Ha & Hok).
  apply fields_ok_spec in Hok as (_ & As' & Ar' & Lx & _).
  unfold fake_arn, arn_text in Ha. apply (inj (String.app "arn:aws:")) in Ha.
  apply (all_chars_impl _ _ _ word_hyphen_not_colon) in As, Ar, As', Ar'.
  apply (field_unique ":" service svc) in Ha as [-> Ha]; [|done..].
  apply (field_unique ":" region reg) in Ha as [-> Ha]; [|done..].
  destruct (more_than_twelve_digits (100000000000 + i) ltac:(lia)) as [Hlen Hdig].
  symmetry in Ha. apply (digits_then_colon x _ _ _ Hdig) in Ha; [done | lia].
Qed.

(** X16. The pattern accepts an identifier, and yields [x], exactly when
    the identifier reads [arn:aws:SERVICE:REGION:x:RESOURCE] with a
    service of one or more word characters or hyphens, a region of such
    characters (possibly none), [x] of twelve digits, and a resource of
    one or more characters other than newlines, followed by nothing or
    by a single final newline. In particular whatever is extracted is
    twelve digits. *)
Theorem arn_pattern_reads_five_fields (a x : string) :
  (account_id_of a = Some x <->
     exists service region resource tail,
       a = arn_text service region x resource tail /\
       arn_fields_ok service region x resource tail = true) /\
  (account_id_of a = Some x ->
     String.length x = 12%nat /\ all_chars is_digit x = true).
Proof.
  split; [apply account_id_of_shape |].
  intros (svc & reg & res & tail & _ & Hok)%account_id_of_shape.
  apply fields_ok_spec in Hok. tauto.
Qed.

Lemma arn_pattern_reads_five_fields_witness :
  account_id_of ("arn:aws:iam::123456789012:user/x" +:+ String newline "") =
    Some "123456789012".
Proof.
  destruct (arn_pattern_reads_five_fields
              ("arn:aws:iam::123456789012:user/x" +:+ String newline "") "123456789012")
    as [[_ H] _].
  apply H. exists "iam", "", "user/x", (String newline ""). split; reflexivity.
Defined.

(** X17. On an input whose identifiers are 7-bit text, both extractions
    return exactly the ids of the input identifiers of that form: [x] is
    in the eager set (is yielded by the generator) if and only if some
    identifier of the input reads [arn:aws:SERVICE:REGION:x:RESOURCE]
    under the pattern's conditions. Every id returned is twelve digits
    [0-9]. *)
Theorem arn_results_trace_back (arns : list string) (x : string) :
  Forall (fun a => seven_bit a = true) arns ->
  (x ∈ collect_account_ids_from_arns arns <->
     exists service region resource tail,
       arn_text service region x resource tail ∈ arns /\
       arn_fields_ok service region x resource tail = true) /\
  (x ∈ collect_account_ids_from_arns_1 arns <-> x ∈ collect_account_ids_from_arns arns) /\
  (x ∈ collect_account_ids_from_arns arns ->
     String.length x = 12%nat /\ all_chars is_digit x = true).
Proof.
  intros _.
  assert (H : x ∈ collect_account_ids_from_arns arns <->
     exists service region resource tail,
       arn_text service region x resource tail ∈ arns /\
       arn_fields_ok service region x resource tail = true).
  { rewrite ArnTheorems.eager_elements. split.
    - intros (a & Ha & (svc & reg & res & tail & -> & Hok)%account_id_of_shape). eauto 10.
    - intros (svc & reg & res & tail & Ha & Hok). eexists. split; [exact Ha |].
      apply account_id_of_shape. eauto 10. }
  split_and!.
  - exact H.
  - by rewrite ArnTheorems.eager_is_set_of_lazy, elem_of_list_to_set.
  - intros (svc & reg & res & tail & _ & Hok)%H. apply fields_ok_spec in Hok. tauto.
Qed.

Lemma arn_results_trace_back_witness :
  "123456789012" ∈ collect_account_ids_from_arns ["not an arn"; "arn:aws:iam::123456789012:user/x"].
Proof.
  destruct (arn_results_trace_back ["not an arn"; "arn:aws:iam::123456789012:user/x"]
              "123456789012" ltac:(repeat constructor)) as [[_ H] _].
  apply H. exists "iam", "", "user/x", "". split; [|reflexivity].
  right. left.
Defined.

(** X18. For every count up to 900000000000 and all parameters that fit
    the pattern (a non-empty service and a region of word characters and
    hyphens, a resource type and prefix without newlines), the generated
    identifiers are all matched: the generator form yields the ids
    [100000000000 + i] for [i < count] in order, and the eager set holds
    these [count] distinct ids. *)
Theorem generated_arns_all_extracted
    (service region resource_type resource_prefix : string) (count : nat) :
  service <> "" ->
  all_chars word_hyphen service = true ->
  all_chars word_hyphen region = true ->
  all_chars not_newline resource_type = true ->
  all_chars not_newline resource_prefix = true ->
  Z.of_nat count <= 900000000000 ->
  collect_account_ids_from_arns_1
    (generate_fake_arns service region resource_type resource_prefix count) =
    map (fun i : nat => pretty (100000000000 + Z.of_nat i)) (seq 0 count) /\
  collect_account_ids_from_arns
    (generate_fake_arns service region resource_type resource_prefix count) =
    list_to_set (map (fun i : nat => pretty (100000000000 + Z.of_nat i)) (seq 0 count)) /\
  size (collect_account_ids_from_arns
          (generate_fake_arns service region resource_type resource_prefix count)) = count.
Proof.
  intros Hs As Ar At Ap Hc.
  assert (Hlazy : collect_account_ids_from_arns_1
    (generate_fake_arns service region resource_type resource_prefix count) =
    (fun i : nat => pretty (100000000000 + Z.of_nat i)) <$> seq 0 count).
  { rewrite lazy_is_omap, generate_is_map, omap_of_fmap. apply omap_all_some.
    intros n Hn%elem_of_seq.
    rewrite fake_arn_matched by (try done; lia). reflexivity. }
  split_and!.
  - exact Hlazy.
  - by rewrite ArnTheorems.eager_is_set_of_lazy, Hlazy.
  - rewrite ArnTheorems.eager_is_set_of_lazy, Hlazy, size_list_to_set.
    + by rewrite length_fmap, length_seq.
    + apply NoDup_fmap_2_strong; [|apply NoDup_seq].
      intros i j _ _ Hij%(inj pretty). lia.
Qed.

Lemma generated_arns_all_extracted_witness :
  collect_account_ids_from_arns_1 (generate_fake_arns_default 3) =
    ["100000000000"; "100000000001"; "100000000002"].
Proof.
  apply (generated_arns_all_extracted "s3" "us-east-1" "bucket" "test-bucket" 3);
    [discriminate | reflexivity | reflexivity | reflexivity | reflexivity | lia].
Defined.

(** X19. Every identifier the generator makes is [fake_arn] at its
    index. From the index 900000000000 on, [100000000000 + i] has more
    than twelve digits and the identifier is no longer matched by the
    pattern: neither extraction returns anything for it. *)
Theorem generated_arns_beyond_twelve_digits
    (service region resource_type resource_prefix : string) (i : Z) :
  all_chars word_hyphen service = true ->
  all_chars word_hyphen region = true ->
  900000000000 <= i ->
  account_id_of (fake_arn service region resource_type resource_prefix i) = None /\
  collect_account_ids_from_arns
    [fake_arn service region resource_type resource_prefix i] = ∅ /\
  collect_account_ids_from_arns_1
    [fake_arn service region resource_type resource_prefix i] = [] /\
  (forall count n, (n < count)%nat ->
     generate_fake_arns service region resource_type resource_prefix count !! n =
       Some (fake_arn service region resource_type resource_prefix (Z.of_nat n))).
Proof.
  intros As Ar Hi.
  pose proof (fake_arn_unmatched service region resource_type resource_prefix i As Ar Hi) as H.
  assert (Hl : collect_account_ids_from_arns_1
                 [fake_arn service region resource_type resource_prefix i] = []).
  { rewrite lazy_is_omap.
    change (omap account_id_of [fake_arn service region resource_type resource_prefix i])
      with (match account_id_of (fake_arn service region resource_type resource_prefix i)
            with Some y => [y] | None => [] end).
    by rewrite H. }
  split_and!.
  - exact H.
  - by rewrite ArnTheorems.eager_is_set_of_lazy, Hl.
  - exact Hl.
  - intros count n Hn. rewrite generate_is_map, list_lookup_fmap, lookup_seq_lt by done.
    reflexivity.
Qed.

Lemma generated_arns_beyond_twelve_digits_witness :
  account_id_of (fake_arn "s3" "us-east-1" "bucket" "test-bucket" 900000000000) = None.
Proof.
  apply (generated_arns_beyond_twelve_digits "s3" "us-east-1" "bucket" "test-bucket"
           900000000000); [reflexivity | reflexivity | lia].
Defined.

(** X20. The eager set depends only on which identifiers are in the
    input, not on their order or repetition, and has at most as many
    elements as the generator yields items; the generator yields at most
    one item per identifier, and the items of a concatenated input are
    those of its parts in order. *)
Theorem arn_eager_set_and_lazy_sequence (l1 l2 : list string) :
  ((forall a, a ∈ l1 <-> a ∈ l2) ->
     collect_account_ids_from_arns l1 = collect_account_ids_from_arns l2) /\
  collect_account_ids_from_arns (l1 ++ l1) = collect_account_ids_from_arns l1 /\
  (size (collect_account_ids_from_arns l1) <=
     length (collect_account_ids_from_arns_1 l1))%nat /\
  (length (collect_account_ids_from_arns_1 l1) <= length l1)%nat /\
  collect_account_ids_from_arns_1 (l1 ++ l2) =
    (collect_account_ids_from_arns_1 l1 ++ collect_account_ids_from_arns_1 l2)%list /\
  collect_account_ids_from_arns (l1 ++ l2) =
    collect_account_ids_from_arns l1 ∪ collect_account_ids_from_arns l2.
Proof.
  assert (Hext : forall m1 m2 : list string, (forall a, a ∈ m1 <-> a ∈ m2) ->
     collect_account_ids_from_arns m1 = collect_account_ids_from_arns m2).
  { intros m1 m2 H. apply set_eq. intros x. rewrite !ArnTheorems.eager_elements.
    split; intros (a & Ha & Hx); exists a; (split; [by apply H | done]). }
  split_and!.
  - apply Hext.
  - apply Hext. intros a. rewrite elem_of_app. tauto.
  - rewrite ArnTheorems.eager_is_set_of_lazy. apply size_list_to_set_le.
  - rewrite lazy_is_omap. apply length_omap_le.
  - apply ArnTheorems.lazy_app.
  - rewrite !ArnTheorems.eager_is_set_of_lazy, ArnTheorems.lazy_app.
    apply list_to_set_app_L.
Qed.

Lemma arn_eager_set_and_lazy_sequence_witness :
  collect_account_ids_from_arns
    ["arn:aws:iam::123456789012:user/x"; "x"; "arn:aws:iam::123456789012:user/x"] =
  collect_account_ids_from_arns ["x"; "arn:aws:iam::123456789012:user/x"].
Proof.
  destruct (arn_eager_set_and_lazy_sequence
              ["arn:aws:iam::123456789012:user/x"; "x"; "arn:aws:iam::123456789012:user/x"]
              ["x"; "arn:aws:iam::123456789012:user/x"]) as [H _].
  apply H. intros a. rewrite !elem_of_cons, !elem_of_nil. tauto.
Defined.

End ArnRunTheorems.

Module ContextRunTheorems.
Import ContextM ContextTheorems.

(** X21. The brackets nest: a block inside [with db_handler()] inside
    [with DBHandler()] (or inside the decorated function) is preceded by
    two stop lines and followed by two start lines, whether it returns
    or raises, and its exception still reaches the caller. *)
Theorem brackets_nest {A} (out : list string) (r : outcome exn A) :
  with_DBHandler (with_db_handler (out, r)) =
    ("systemctl stop postgresql.service" :: "systemctl stop postgresql.service" ::
       out ++ ["systemctl start postgresql.service"; "systemctl start postgresql.service"],
     surfaced (surfaced r))%list /\
  decorated (with_DBHandler (out, r)) =
    ("systemctl stop postgresql.service" :: "systemctl stop postgresql.service" ::
       out ++ ["systemctl start postgresql.service"; "systemctl start postgresql.service"],
     surfaced (surfaced r))%list /\
  (forall e, surfaced (surfaced r) = Raised e <-> r = Raised e).
Proof.
  split_and!.
  - rewrite with_db_handler_trace, with_DBHandler_trace. unfold bracketed.
    simpl. by rewrite <- app_assoc.
  - rewrite with_DBHandler_trace, decorated_trace. unfold bracketed.
    simpl. by rewrite <- app_assoc.
  - intros e. destruct r; simpl; split; congruence.
Qed.

Lemma brackets_nest_witness :
  with_DBHandler (with_db_handler (A := unit) (["pg_dump database"], Raised (OtherError "OSError" 1))) =
    (["systemctl stop postgresql.service"; "systemctl stop postgresql.service";
      "pg_dump database";
      "systemctl start postgresql.service"; "systemctl start postgresql.service"],
     Raised (OtherError "OSError" 1)).
Proof.
  apply (brackets_nest (A := unit) ["pg_dump database"] (Raised (OtherError "OSError" 1))).
Defined.

(** X22. The object that [db_handler()] returns serves one [with]
    statement. Entering it runs the stop action and deletes the
    arguments it stored; leaving the block, normally or by any exception,
    runs the start action and finishes its generator. A [with] statement
    on an object that was entered before raises [AttributeError] at once,
    whatever state its generator is in, without the stop action and
    without running the block. A [DBHandler] object has no such state:
    its [__enter__] runs the stop action every time. *)
Theorem generator_manager_is_single_use {A} (exc : option exn) (g : gen_state)
    (block : M A) :
  gcm_enter new_db_handler =
    (["systemctl stop postgresql.service"], Returned (mkGenManager GenAtYield false)) /\
  gcm_exit (mkGenManager GenAtYield false) exc =
    (["systemctl start postgresql.service"],
     Returned (mkGenManager GenFinished false, false)) /\
  with_stmt db_handler (mkGenManager g false) block =
    ([], Raised (OtherError "AttributeError" 0)) /\
  (forall s, cm_enter DBHandler s = (["systemctl stop postgresql.service"], Returned s)).
Proof.
  split_and!.
  - reflexivity.
  - destruct exc as [e|]; [apply gcm_exit_throw | reflexivity].
  - reflexivity.
  - intros []. reflexivity.
Qed.

End ContextRunTheorems.
